(** * autoXRD.tabulate_cifs: filtering, grouping and selection of CIF entries

    A shallow embedding of [src/autoXRD/tabulate_cifs/__init__.py] and the
    properties of its four functions:

    - [get_stoichiometric_info]     (ingestion and occupancy filter),
    - [parse_measurement_conditions] (text scan for temperature and date),
    - [get_unique_struct_info]      (greedy grouping by structural framework),
    - [get_recent_RT_entry]         (closest to 293 K, then latest date).

    Python lists are Rocq lists, [str] is [string] (characters are code
    points below 256), [float] and [numpy.float64] are the kernel's binary64
    floats, [None]-or-string dates are [option string], and a raised
    exception is the [Raise] branch of [result].  The pymatgen library and
    the builtin [float()] are interfaces ([Pymatgen], [PyFloat]). *)

From Stdlib Require Import String Ascii List Bool Arith ZArith Lia.
From Stdlib Require Import Floats Sorted Permutation.
Import ListNotations.

(** ** Exceptions and the error monad *)

Inductive exn : Set :=
| IndexError      (* list index out of range *)
| TypeError       (* '<' not supported between the operands *)
| ValueError      (* could not convert string to float *)
| LibraryError.   (* anything raised inside pymatgen *)

Inductive result (A : Type) : Type :=
| Ok (a : A)
| Raise (e : exn).

Arguments Ok {A} a.
Arguments Raise {A} e.

Definition bind {A B : Type} (r : result A) (k : A -> result B) : result B :=
  match r with
  | Ok a => k a
  | Raise e => Raise e
  end.

Declare Scope py_scope.
Delimit Scope py_scope with py.
Notation "x <- e ;; k" := (bind e (fun x => k))
  (at level 61, e at next level, right associativity) : py_scope.
Notation "' p <- e ;; k" := (bind e (fun x => match x with p => k end))
  (at level 61, p pattern, e at next level, right associativity) : py_scope.
Local Open Scope py_scope.

(** A [for] loop whose body may raise: the state is threaded through the
    items in order and the first exception ends the loop. *)
Fixpoint for_loop {A St : Type} (body : St -> A -> result St)
  (items : list A) (st : St) : result St :=
  match items with
  | [] => Ok st
  | x :: rest => st' <- body st x ;; for_loop body rest st'
  end.

(** ** Python builtins on lists *)

(** [zip(a, b, c)]: stops at the shortest argument. *)
Fixpoint zip3 {A B C : Type} (a : list A) (b : list B) (c : list C)
  : list (A * B * C) :=
  match a, b, c with
  | x :: a', y :: b', z :: c' => (x, y, z) :: zip3 a' b' c'
  | _, _, _ => []
  end.

(** [l[0]] *)
Definition item_first {A : Type} (l : list A) : result A :=
  match l with
  | [] => Raise IndexError
  | x :: _ => Ok x
  end.

(** [l[-1]] *)
Fixpoint item_last {A : Type} (l : list A) : result A :=
  match l with
  | [] => Raise IndexError
  | [x] => Ok x
  | _ :: rest => item_last rest
  end.

(** [sorted(l, key=key)]: a stable sort that only uses [<] on the keys; the
    comparison of two keys may itself raise.  The sort is written as a stable
    insertion: an element is placed before the first element of the sorted
    tail that is not strictly smaller than it.  On keys that [<] orders
    totally this is the list every stable sort returns, and for two or more
    items every item takes part in a comparison, as in CPython's sort; a list
    of fewer than two items is returned without any comparison.  With a NaN
    among two or more float keys [<] is no order, the list CPython returns
    depends on its run detection and merge strategy, and it is not the list
    computed here: no property below depends on the list returned in that
    case.  The properties of [get_recent_RT_entry] are stated for groups
    none of whose deviations is NaN or for a group of at most one entry; the
    one property stated for every list of groups, that the empty group makes
    the call raise, holds whatever is selected from the other groups. *)
Fixpoint insert_by {A K : Type} (lt : K -> K -> result bool) (key : A -> K)
  (x : A) (l : list A) : result (list A) :=
  match l with
  | [] => Ok [x]
  | y :: rest =>
      b <- lt (key y) (key x) ;;
      if b then (r <- insert_by lt key x rest ;; Ok (y :: r))
      else Ok (x :: y :: rest)
  end.

Fixpoint sorted {A K : Type} (lt : K -> K -> result bool) (key : A -> K)
  (l : list A) : result (list A) :=
  match l with
  | [] => Ok []
  | x :: rest => r <- sorted lt key rest ;; insert_by lt key x r
  end.

(** [<] on [numpy.float64]: never raises; false when an operand is NaN. *)
Definition float_lt (a b : float) : result bool := Ok (PrimFloat.ltb a b).

(** [<] on the date values, each [None] or a [str]: strings compare by code
    point, anything involving [None] raises [TypeError]. *)
Definition date_lt (a b : option string) : result bool :=
  match a, b with
  | Some x, Some y => Ok (String.ltb x y)
  | _, _ => Raise TypeError
  end.

(** ** Python builtins on strings *)

(** [sub in s] *)
Fixpoint contains (sub s : string) : bool :=
  if String.prefix sub s then true
  else match s with
       | EmptyString => false
       | String _ rest => contains sub rest
       end.

(** [str.isspace] on one character below 256: tab, LF, VT, FF, CR,
    0x1c-0x1f, space, 0x85 and 0xa0. *)
Definition is_space (c : ascii) : bool :=
  let n := nat_of_ascii c in
  ((9 <=? n) && (n <=? 13)) || ((28 <=? n) && (n <=? 32))
  || (n =? 133) || (n =? 160).

(** [s.split()]: the maximal runs of non-space characters, in order. *)
Fixpoint split (s : string) : list string :=
  match s with
  | EmptyString => []
  | String c rest =>
      if is_space c then split rest
      else match rest with
           | EmptyString => [String c EmptyString]
           | String c' _ =>
               if is_space c' then String c EmptyString :: split rest
               else match split rest with
                    | tok :: toks => String c tok :: toks
                    | [] => [String c EmptyString]
                    end
           end
  end.

Definition LF : ascii := ascii_of_nat 10.

(** [f.readlines()] on the decoded text (newlines already translated to LF):
    every line keeps its LF, the last line may lack one. *)
Fixpoint readlines (s : string) : list string :=
  match s with
  | EmptyString => []
  | String c rest =>
      if Ascii.eqb c LF then String c EmptyString :: readlines rest
      else match readlines rest with
           | line :: lines => String c line :: lines
           | [] => [String c EmptyString]
           end
  end.

(** ** The external collaborators *)

(** One file of the directory: its name and its text. *)
Record cif_file : Set := { name : string; text : string }.

(** What the module uses of pymatgen: [Structure.from_file] (may raise),
    the [is_ordered] property, and [StructureMatcher(scale=True,
    attempt_supercell=True, primitive_cell=False).fit]. *)
Class Pymatgen : Type := {
  Structure : Type;
  from_file : cif_file -> result Structure;
  is_ordered : Structure -> bool;
  fit : Structure -> Structure -> bool
}.

(** The builtin [float(token)]: [None] stands for [ValueError]. *)
Class PyFloat : Type := { parse_float : string -> option float }.

Definition float_of_token `{PyFloat} (tok : string) : result float :=
  match parse_float tok with
  | Some x => Ok x
  | None => Raise ValueError
  end.

(** ** parse_measurement_conditions *)

Definition date_marker : string := "_audit_creation_date".
Definition temp_marker : string := "_cell_measurement_temperature".

(** The body of the loop over the lines, on the pair [(temp, date)]. *)
Definition scan_line `{PyFloat} (st : float * option string) (line : string)
  : result (float * option string) :=
  let '(temp, date) := st in
  date' <- (if contains date_marker line
            then tok <- item_last (split line) ;; Ok (Some tok)
            else Ok date) ;;
  temp' <- (if contains temp_marker line
            then tok <- item_last (split line) ;; float_of_token tok
            else Ok temp) ;;
  Ok (temp', date').

(** The source takes the directory and the file name and opens the file they
    name; here the file itself is the argument. *)
Definition parse_measurement_conditions `{PyFloat} (f : cif_file)
  : result (float * option string) :=
  for_loop scan_line (readlines (text f)) (0%float, None).

(** ** get_stoichiometric_info *)

(** A directory, as [os.listdir] enumerates it.  [Structure.from_file] is
    called on every file, [parse_measurement_conditions] only on the files
    whose structure is ordered. *)
Definition cif_directory : Set := list cif_file.

Section Ingestion.
Context `{Pymatgen} `{PyFloat}.

Definition info : Type :=
  (list Structure * list float * list (option string))%type.

Definition tabulate (st : info) (cmpd : cif_file) : result info :=
  let '(stoich_structs, temps, dates) := st in
  struct <- from_file cmpd ;;
  if is_ordered struct then
    '(t, d) <- parse_measurement_conditions cmpd ;;
    Ok (stoich_structs ++ [struct], temps ++ [t], dates ++ [d])
  else Ok (stoich_structs, temps, dates).

Definition get_stoichiometric_info (dir : cif_directory) : result info :=
  for_loop tabulate dir ([], [], []).
End Ingestion.

(** ** get_unique_struct_info *)

Section Grouping.
Context `{Pymatgen}.

(** The inner loop of the discovery: [unique] ends false as soon as one
    framework fits (the loop does not stop early). *)
Definition is_unique (struct_1 : Structure) (frameworks : list Structure)
  : bool :=
  fold_left (fun unique struct_2 =>
               if fit struct_1 struct_2 then false else unique)
            frameworks true.

Definition unique_frameworks (stoich_refs : list Structure)
  : list Structure :=
  fold_left (fun frameworks struct_1 =>
               if is_unique struct_1 frameworks
               then frameworks ++ [struct_1] else frameworks)
            stoich_refs [].

(** The class of one framework: the loop over the zipped input. *)
Definition struct_class (framework : Structure)
  (stoich_refs : list Structure) (temps : list float)
  (dates : list (option string)) : info :=
  fold_left (fun (cls : info) (e : Structure * float * option string) =>
               let '(sc, tc, dc) := cls in
               let '(struct, t, d) := e in
               if fit framework struct
               then (sc ++ [struct], tc ++ [t], dc ++ [d])
               else (sc, tc, dc))
            (zip3 stoich_refs temps dates) ([], [], []).

Definition grouped : Type :=
  (list (list Structure) * list (list float)
   * list (list (option string)))%type.

Definition get_unique_struct_info (stoich_refs : list Structure)
  (temps : list float) (dates : list (option string)) : grouped :=
  fold_left (fun (g : grouped) framework =>
               let '(grouped_structs, grouped_temps, grouped_dates) := g in
               let '(sc, tc, dc) :=
                 struct_class framework stoich_refs temps dates in
               (grouped_structs ++ [sc], grouped_temps ++ [tc],
                grouped_dates ++ [dc]))
            (unique_frameworks stoich_refs) ([], [], []).
End Grouping.

(** ** get_recent_RT_entry *)

Definition RT : float := 293%float.

(** [abs(np.array(temp_class) - 293.0)], one element. *)
Definition normalized_temp (t : float) : float :=
  PrimFloat.abs (PrimFloat.sub t RT).

Section Selection.
Context {Cmpd : Type}.

Definition entry : Type := (Cmpd * float * option string)%type.
Definition entry_struct (e : entry) : Cmpd := fst (fst e).
Definition entry_temp (e : entry) : float := snd (fst e).
Definition entry_date (e : entry) : option string := snd e.

(** The loop collecting [candidate_structs] and [candidate_dates]. *)
Definition candidates (best_entry : entry) (sorted_info : list entry)
  : list Cmpd * list (option string) :=
  fold_left (fun (acc : list Cmpd * list (option string)) (e : entry) =>
               let '(candidate_structs, candidate_dates) := acc in
               if PrimFloat.eqb (entry_temp e) (entry_temp best_entry)
               then (candidate_structs ++ [entry_struct e],
                     candidate_dates ++ [entry_date e])
               else (candidate_structs, candidate_dates))
            sorted_info ([], []).

(** The body of the loop over the groups. *)
Definition recent_RT_entry (struct_class : list Cmpd)
  (temp_class : list float) (date_class : list (option string))
  : result Cmpd :=
  let normalized_temps := map normalized_temp temp_class in
  let zipped_info := zip3 struct_class normalized_temps date_class in
  sorted_info <- sorted float_lt entry_temp zipped_info ;;
  best_entry <- item_first sorted_info ;;
  let '(candidate_structs, candidate_dates) :=
    candidates best_entry sorted_info in
  let zipped_info := combine candidate_structs candidate_dates in
  sorted_info <- sorted date_lt snd zipped_info ;;
  last_entry <- item_last sorted_info ;;
  Ok (fst last_entry).

Definition get_recent_RT_entry (grouped_structs : list (list Cmpd))
  (grouped_temps : list (list float))
  (grouped_dates : list (list (option string))) : result (list Cmpd) :=
  for_loop (fun filtered_cmpds (g : list Cmpd * list float * list (option string)) =>
              let '(sc, tc, dc) := g in
              final_struct <- recent_RT_entry sc tc dc ;;
              Ok (filtered_cmpds ++ [final_struct]))
           (zip3 grouped_structs grouped_temps grouped_dates) [].
End Selection.

(** * The vocabulary of the properties *)

(** [subseq l1 l2]: [l1] is [l2] with some items left out, order kept. *)
Inductive subseq {A : Type} : list A -> list A -> Prop :=
| subseq_nil : subseq [] []
| subseq_skip x l1 l2 : subseq l1 l2 -> subseq l1 (x :: l2)
| subseq_keep x l1 l2 : subseq l1 l2 -> subseq (x :: l1) (x :: l2).

(** The order on items that an order [le] on their keys induces. *)
Definition key_le {A K : Type} (key : A -> K) (le : K -> K -> Prop)
  (x y : A) : Prop :=
  le (key x) (key y).

(** [date_le a b]: both are strings and [a] does not sort after [b]. *)
Definition date_le (a b : option string) : Prop :=
  match a, b with
  | Some x, Some y => String.leb x y = true
  | _, _ => False
  end.

Definition is_string (d : option string) : Prop := d <> None.

(** ** Ingestion *)

(** [from_file] succeeded and the structure is ordered. *)
Definition file_is_ordered `{Pymatgen} (f : cif_file) : bool :=
  match from_file f with
  | Ok struct => is_ordered struct
  | Raise _ => false
  end.

(** The row a retained file contributes. *)
Definition row_of `{Pymatgen} `{PyFloat} (f : cif_file)
  (row : Structure * float * option string) : Prop :=
  from_file f = Ok (fst (fst row))
  /\ parse_measurement_conditions f = Ok (snd (fst row), snd row).

(** ** Grouping *)

(** The entries of the input that one framework collects. *)
Definition fits_framework `{Pymatgen} (framework : Structure)
  (e : Structure * float * option string) : bool :=
  fit framework (fst (fst e)).

(** The entries of a group given by its three lists. *)
Definition entries_of {Cmpd : Type}
  (g : list Cmpd * list float * list (option string))
  : list (Cmpd * float * option string) :=
  zip3 (fst (fst g)) (snd (fst g)) (snd g).

(** ** Selection *)

(** The entry as the first sort sees it: the temperature replaced by its
    distance from 293.0. *)
Definition normalize {Cmpd : Type} (e : @entry Cmpd) : @entry Cmpd :=
  (entry_struct e, normalized_temp (entry_temp e), entry_date e).

Definition deviation {Cmpd : Type} (e : @entry Cmpd) : float :=
  normalized_temp (entry_temp e).

(** [entry[1] == best_entry[1]] *)
Definition tied {Cmpd : Type} (best e : @entry Cmpd) : bool :=
  PrimFloat.eqb (entry_temp e) (entry_temp best).

(** The selection of one group, on a triple. *)
Definition select {Cmpd : Type}
  (g : list Cmpd * list float * list (option string)) : result Cmpd :=
  recent_RT_entry (fst (fst g)) (snd (fst g)) (snd g).

(** A group with at least one entry, every deviation a number and every
    date a string. *)
Definition selectable {Cmpd : Type}
  (g : list Cmpd * list float * list (option string)) : Prop :=
  entries_of g <> []
  /\ forall e, In e (entries_of g) ->
               PrimFloat.is_nan (deviation e) = false
               /\ is_string (entry_date e).

(** [final] is the structure of an entry of the group that is as close to
    293.0 as any entry and dated no earlier than any entry as close. *)
Definition closest_then_latest {Cmpd : Type}
  (g : list Cmpd * list float * list (option string)) (final : Cmpd)
  : Prop :=
  exists e,
    In e (entries_of g) /\ entry_struct e = final
    /\ (forall e', In e' (entries_of g) ->
                   PrimFloat.leb (deviation e) (deviation e') = true)
    /\ (forall e', In e' (entries_of g) ->
                   PrimFloat.eqb (deviation e') (deviation e) = true ->
                   date_le (entry_date e') (entry_date e)).

(** ** Concrete collaborators for the examples *)

(** Structures are numbered.  A file parses to the length of its name (a
    file without a name is rejected) and a structure is ordered when its
    number is even. *)
Definition numbered_from_file (f : cif_file) : result nat :=
  match name f with
  | EmptyString => Raise LibraryError
  | _ => Ok (String.length (name f))
  end.

(** Two numbered structures fit when their numbers differ by at most one:
    reflexive and symmetric, not transitive. *)
Definition near (a b : nat) : bool := (a - b <=? 1) && (b - a <=? 1).

(** Two numbered structures fit when they have the same tens: an
    equivalence. *)
Definition same_tens (a b : nat) : bool := (a / 10 =? b / 10).

Definition near_matcher : Pymatgen :=
  {| Structure := nat; from_file := numbered_from_file;
     is_ordered := Nat.even; fit := near |}.

Definition tens_matcher : Pymatgen :=
  {| Structure := nat; from_file := numbered_from_file;
     is_ordered := Nat.even; fit := same_tens |}.

(** [float] restricted to unsigned decimal integers. *)
Fixpoint decimal (s : string) (acc : Z) : option Z :=
  match s with
  | EmptyString => Some acc
  | String c rest =>
      let n := Z.of_nat (nat_of_ascii c) in
      if ((48 <=? n) && (n <=? 57))%Z
      then decimal rest (10 * acc + (n - 48))%Z
      else None
  end.

Definition decimal_float : PyFloat :=
  {| parse_float := fun tok =>
       match tok with
       | EmptyString => None
       | _ => option_map (fun z => PrimFloat.of_uint63 (Uint63.of_Z z))
                         (decimal tok 0%Z)
       end |}.

Definition line (s : string) : string := (s ++ String LF EmptyString)%string.

(** Three files: an ordered one with both markers, a disordered one, and an
    ordered one without markers. *)
Definition example_directory : cif_directory :=
  [ {| name := "ab";
       text := line "data_ab"
               ++ line "_audit_creation_date   2021-06-15"
               ++ line "_cell_measurement_temperature 300" |};
    {| name := "abc";
       text := line "_cell_measurement_temperature 293(2)" |};
    {| name := "abcd"; text := line "data_abcd" |} ]%string.

(** An ordered file whose temperature carries an uncertainty. *)
Definition malformed_file : cif_file :=
  {| name := "ab"; text := line "_cell_measurement_temperature 293(2)" |}.

(** ** Vocabulary of the further properties *)

(** Two results of [get_stoichiometric_info] put end to end. *)
Definition info_app `{Pymatgen} (a b : info) : info :=
  let '(s1, t1, d1) := a in
  let '(s2, t2, d2) := b in
  (s1 ++ s2, t1 ++ t2, d1 ++ d2).

(** A file that gives each marker twice. *)
Definition repeated_markers_file : cif_file :=
  {| name := "ab";
     text := line "_audit_creation_date 2019-01-01"
             ++ line "_cell_measurement_temperature 150"
             ++ line "_audit_creation_date 2021-06-15"
             ++ line "_cell_measurement_temperature 300"
             ++ line "loop_" |}%string.

(** Two ordered files that give both markers, around a disordered one. *)
Definition dated_directory : cif_directory :=
  [ {| name := "ab";
       text := line "_audit_creation_date 2021-06-15"
               ++ line "_cell_measurement_temperature 300" |};
    {| name := "abc"; text := line "data_abc" |};
    {| name := "abcd";
       text := line "_cell_measurement_temperature 150"
               ++ line "_audit_creation_date 2019-01-01" |} ]%string.

(** A file that cannot be parsed: it has no name. *)
Definition nameless_file : cif_file :=
  {| name := EmptyString; text := line "data_" |}.

(** ** Proof tools for the cases of a binary64 value *)

Ltac sf_signs :=
  repeat match goal with
         | s : bool |- _ => destruct s
         end;
  simpl; try reflexivity; try discriminate.

Ltac pos_cmp :=
  repeat match goal with
         | |- context [PosDef.Pos.compare_cont Eq ?a ?b] =>
             change (PosDef.Pos.compare_cont Eq a b) with (Pos.compare a b)
         | H : context [PosDef.Pos.compare_cont Eq ?a ?b] |- _ =>
             change (PosDef.Pos.compare_cont Eq a b) with (Pos.compare a b)
               in H
         end.

(** * Properties *)

(** ** The error monad and the loops *)

Lemma bind_Ok {A B : Type} (r : result A) (k : A -> result B) (b : B) :
  bind r k = Ok b <-> exists a, r = Ok a /\ k a = Ok b.
Proof.
  destruct r as [a|e]; simpl; split.
  - intros Hk. exists a. split; [reflexivity | exact Hk].
  - intros [a' [Ha Hk]]. injection Ha as ->. exact Hk.
  - discriminate.
  - intros [a' [Ha _]]. discriminate.
Qed.

Lemma bind_congr {A B : Type} (r r' : result A) (k k' : A -> result B) :
  r = r' -> (forall a, k a = k' a) -> bind r k = bind r' k'.
Proof.
  intros <- Hk. destruct r as [a|e]; simpl; [apply Hk | reflexivity].
Qed.

(** A loop whose body appends one item per element returns the collected
    items exactly when every body succeeds. *)
Lemma for_loop_collect {A B : Type} (f : A -> result B) (items : list A) :
  forall (acc out : list B),
    for_loop (fun st x => y <- f x ;; Ok (st ++ [y])) items acc = Ok out <->
    exists ys, Forall2 (fun x y => f x = Ok y) items ys /\ out = acc ++ ys.
Proof.
  induction items as [|x rest IH]; intros acc out; simpl.
  - split.
    + intros Heq. injection Heq as <-. exists []. split; [constructor|].
      now rewrite app_nil_r.
    + intros [ys [Hall ->]]. inversion Hall; subst. now rewrite app_nil_r.
  - destruct (f x) as [y|e] eqn:Hfx; simpl.
    + rewrite IH. split.
      * intros [ys [Hall ->]]. exists (y :: ys). split.
        -- constructor; assumption.
        -- now rewrite <- app_assoc.
      * intros [ys [Hall ->]]. inversion Hall as [|x' y' r' ys' Hy Hrest]; subst.
        rewrite Hfx in Hy. injection Hy as <-.
        exists ys'. split; [assumption|]. now rewrite <- app_assoc.
    + split; [discriminate|].
      intros [ys [Hall _]]. inversion Hall as [|x' y' r' ys' Hy Hrest]; subst.
      rewrite Hfx in Hy. discriminate.
Qed.

(** The same loop raises as soon as one body raises. *)
Lemma for_loop_collect_raises {A B : Type} (f : A -> result B)
  (items : list A) (x : A) (e : exn) :
  In x items -> f x = Raise e ->
  forall acc, exists e',
    for_loop (fun st x => y <- f x ;; Ok (st ++ [y])) items acc = Raise e'.
Proof.
  induction items as [|x0 rest IH]; intros Hin Hfx acc; simpl.
  - contradiction.
  - destruct (f x0) as [y|e0] eqn:Hf0; simpl.
    + destruct Hin as [-> | Hin].
      * rewrite Hfx in Hf0. discriminate.
      * apply IH; assumption.
    + exists e0. reflexivity.
Qed.

(** A pure loop that appends the image of the items passing a test. *)
Lemma fold_left_append {A B : Type} (p : A -> bool) (f : A -> B)
  (l : list A) :
  forall acc,
    fold_left (fun acc x => if p x then acc ++ [f x] else acc) l acc
    = acc ++ map f (filter p l).
Proof.
  induction l as [|x rest IH]; intros acc; simpl.
  - now rewrite app_nil_r.
  - rewrite IH. destruct (p x); simpl; [now rewrite <- app_assoc | reflexivity].
Qed.

(** ** zip *)

Lemma zip3_unzip {A B C : Type} (l : list (A * B * C)) :
  zip3 (map (fun e => fst (fst e)) l) (map (fun e => snd (fst e)) l)
       (map snd l) = l.
Proof.
  induction l as [|[[a b] c] rest IH]; simpl; [reflexivity | now rewrite IH].
Qed.

Lemma zip3_map_mid {A B B' C : Type} (f : B -> B') (a : list A)
  (b : list B) (c : list C) :
  zip3 a (map f b) c
  = map (fun e => (fst (fst e), f (snd (fst e)), snd e)) (zip3 a b c).
Proof.
  revert b c. induction a as [|x a IH]; intros [|y b] [|z c]; simpl;
    try reflexivity. now rewrite IH.
Qed.

Lemma zip3_length {A B C : Type} (a : list A) (b : list B) (c : list C) :
  length b = length a -> length c = length a ->
  length (zip3 a b c) = length a.
Proof.
  revert b c. induction a as [|x a IH]; intros [|y b] [|z c]; simpl;
    intros Hb Hc; try discriminate; try reflexivity.
  f_equal. apply IH; lia.
Qed.

Lemma zip3_In_fst {A B C : Type} (a : list A) (b : list B) (c : list C) :
  length b = length a -> length c = length a ->
  forall x, In x a -> exists y z, In (x, y, z) (zip3 a b c).
Proof.
  revert b c. induction a as [|x0 a IH]; intros [|y b] [|z c]; simpl;
    intros Hb Hc x Hin; try discriminate; try contradiction.
  destruct Hin as [-> | Hin].
  - exists y, z. now left.
  - destruct (IH b c) with (x := x) as [y' [z' Hin']]; try lia; try assumption.
    exists y', z'. now right.
Qed.

(** ** Grouping: the loops of get_unique_struct_info *)

Lemma subseq_filter {A : Type} (p : A -> bool) (l : list A) :
  subseq (filter p l) l.
Proof.
  induction l as [|x rest IH]; simpl; [constructor|].
  destruct (p x); [now apply subseq_keep | now apply subseq_skip].
Qed.

Lemma ForallOrdPairs_snoc {A : Type} (R : A -> A -> Prop) (l : list A)
  (x : A) :
  ForallOrdPairs R l -> Forall (fun a => R a x) l ->
  ForallOrdPairs R (l ++ [x]).
Proof.
  induction l as [|a rest IH]; simpl; intros Hfop Hall.
  - constructor; constructor.
  - inversion Hfop as [|a' l' Ha Hrest]; subst.
    inversion Hall as [|a' l' Hax Hall']; subst.
    constructor.
    + apply Forall_app. split; [assumption | now constructor].
    + apply IH; assumption.
Qed.

Lemma ForallOrdPairs_nth {A : Type} (R : A -> A -> Prop) (l : list A) :
  ForallOrdPairs R l ->
  forall i j a b, i < j -> nth_error l i = Some a -> nth_error l j = Some b ->
                  R a b.
Proof.
  induction 1 as [|x rest Hx Hrest IH]; intros i j a b Hlt Hi Hj.
  - destruct i; discriminate.
  - destruct j as [|j]; [lia|]. simpl in Hj. destruct i as [|i]; simpl in Hi.
    + injection Hi as <-. rewrite Forall_forall in Hx. apply Hx.
      eapply nth_error_In; eassumption.
    + apply (IH i j); [lia | assumption | assumption].
Qed.

Section GroupingFacts.
Context `{Pymatgen}.

Lemma is_unique_spec (struct_1 : Structure) (frameworks : list Structure) :
  is_unique struct_1 frameworks = negb (existsb (fit struct_1) frameworks).
Proof.
  unfold is_unique.
  assert (Hgen : forall u,
             fold_left (fun unique struct_2 =>
                          if fit struct_1 struct_2 then false else unique)
                       frameworks u
             = u && negb (existsb (fit struct_1) frameworks)).
  { induction frameworks as [|f rest IH]; intros u; simpl.
    - now rewrite andb_true_r.
    - rewrite IH. destruct (fit struct_1 f); simpl.
      + now rewrite andb_false_r.
      + reflexivity. }
  apply Hgen.
Qed.

(** The discovery loop from any list of frameworks found so far: the list
    only grows at its end, every framework is an input structure, a later
    framework fits no earlier one, and every input structure either became
    a framework or fits one found before it. *)
Lemma discovery_invariant (stoich_refs : list Structure) :
  forall found,
    ForallOrdPairs (fun a b => fit b a = false) found ->
    exists new,
      fold_left (fun frameworks struct_1 =>
                   if is_unique struct_1 frameworks
                   then frameworks ++ [struct_1] else frameworks)
                stoich_refs found = found ++ new
      /\ incl new stoich_refs
      /\ ForallOrdPairs (fun a b => fit b a = false) (found ++ new)
      /\ forall s, In s stoich_refs ->
                   In s new \/ exists f, In f (found ++ new) /\ fit s f = true.
Proof.
  induction stoich_refs as [|s1 rest IH]; intros found Hfop; simpl.
  - exists []. rewrite app_nil_r. repeat split; try assumption.
    + intros x Hx. exact Hx.
    + intros s Hs. contradiction.
  - rewrite is_unique_spec.
    destruct (existsb (fit s1) found) eqn:Hex; simpl.
    + destruct (IH found Hfop) as [new [Heq [Hincl [Hfop' Hcov]]]].
      exists new. repeat split; try assumption.
      * intros x Hx. right. now apply Hincl.
      * intros s [<- | Hs].
        -- right. apply existsb_exists in Hex. destruct Hex as [f [Hf Hfit]].
           exists f. split; [apply in_or_app; now left | assumption].
        -- now apply Hcov.
    + assert (Hfop1 : ForallOrdPairs (fun a b => fit b a = false)
                                     (found ++ [s1])).
      { apply ForallOrdPairs_snoc; [assumption|].
        apply Forall_forall. intros a Ha.
        destruct (fit s1 a) eqn:Hfit; [|reflexivity].
        assert (existsb (fit s1) found = true) as Habs
            by (apply existsb_exists; now exists a).
        rewrite Habs in Hex. discriminate. }
      destruct (IH (found ++ [s1]) Hfop1) as [new [Heq [Hincl [Hfop' Hcov]]]].
      exists (s1 :: new). rewrite <- app_assoc in Heq, Hfop', Hcov.
      simpl in Heq, Hfop', Hcov. repeat split; try assumption.
      * intros x [<- | Hx]; [now left | right; now apply Hincl].
      * intros s [<- | Hs]; [left; now left|].
        destruct (Hcov s Hs) as [Hnew | Hfit]; [left; now right | now right].
Qed.

Lemma unique_frameworks_spec (stoich_refs : list Structure) :
  incl (unique_frameworks stoich_refs) stoich_refs
  /\ ForallOrdPairs (fun a b => fit b a = false)
                    (unique_frameworks stoich_refs)
  /\ forall s, In s stoich_refs ->
               In s (unique_frameworks stoich_refs)
               \/ exists f, In f (unique_frameworks stoich_refs)
                            /\ fit s f = true.
Proof.
  destruct (discovery_invariant stoich_refs [])
    as [new [Heq [Hincl [Hfop Hcov]]]]; [constructor|].
  unfold unique_frameworks. rewrite Heq. simpl in *. auto.
Qed.

Lemma struct_class_eq (framework : Structure) (stoich_refs : list Structure)
  (temps : list float) (dates : list (option string)) :
  struct_class framework stoich_refs temps dates
  = let kept := filter (fits_framework framework)
                       (zip3 stoich_refs temps dates) in
    (map (fun e => fst (fst e)) kept, map (fun e => snd (fst e)) kept,
     map snd kept).
Proof.
  unfold struct_class.
  assert (Hgen : forall es sc tc dc,
    fold_left (fun (cls : info) (e : Structure * float * option string) =>
                 let '(sc, tc, dc) := cls in
                 let '(struct, t, d) := e in
                 if fit framework struct
                 then (sc ++ [struct], tc ++ [t], dc ++ [d])
                 else (sc, tc, dc)) es (sc, tc, dc)
    = (sc ++ map (fun e => fst (fst e)) (filter (fits_framework framework) es),
       tc ++ map (fun e => snd (fst e)) (filter (fits_framework framework) es),
       dc ++ map snd (filter (fits_framework framework) es))).
  { induction es as [|[[s t] d] rest IH]; intros sc tc dc; simpl.
    - now rewrite !app_nil_r.
    - change (fits_framework framework (s, t, d)) with (fit framework s).
      destruct (fit framework s); rewrite IH; simpl;
        [now rewrite <- !app_assoc | reflexivity]. }
  apply Hgen.
Qed.

Lemma get_unique_struct_info_eq (stoich_refs : list Structure)
  (temps : list float) (dates : list (option string)) :
  get_unique_struct_info stoich_refs temps dates
  = let classes := map (fun f => struct_class f stoich_refs temps dates)
                       (unique_frameworks stoich_refs) in
    (map (fun c => fst (fst c)) classes, map (fun c => snd (fst c)) classes,
     map snd classes).
Proof.
  unfold get_unique_struct_info.
  generalize (unique_frameworks stoich_refs) as fs.
  assert (Hgen : forall fs gs gt gd,
    fold_left (fun (g : grouped) framework =>
                 let '(grouped_structs, grouped_temps, grouped_dates) := g in
                 let '(sc, tc, dc) :=
                   struct_class framework stoich_refs temps dates in
                 (grouped_structs ++ [sc], grouped_temps ++ [tc],
                  grouped_dates ++ [dc])) fs (gs, gt, gd)
    = (gs ++ map (fun c => fst (fst c))
                 (map (fun f => struct_class f stoich_refs temps dates) fs),
       gt ++ map (fun c => snd (fst c))
                 (map (fun f => struct_class f stoich_refs temps dates) fs),
       gd ++ map snd
                 (map (fun f => struct_class f stoich_refs temps dates) fs))).
  { induction fs as [|f rest IH]; intros gs gt gd; simpl.
    - now rewrite !app_nil_r.
    - destruct (struct_class f stoich_refs temps dates) as [[sc tc] dc] eqn:Hc.
      rewrite IH. simpl. now rewrite <- !app_assoc. }
  intros fs. apply Hgen.
Qed.

(** The groups, one per framework and in that order: the three lists of the
    [k]-th group are the three columns of the entries its framework fits. *)
Lemma group_nth (stoich_refs : list Structure) (temps : list float)
  (dates : list (option string)) (k : nat) :
  let '(grouped_structs, grouped_temps, grouped_dates) :=
    get_unique_struct_info stoich_refs temps dates in
  forall framework,
    nth_error (unique_frameworks stoich_refs) k = Some framework ->
    let kept := filter (fits_framework framework)
                       (zip3 stoich_refs temps dates) in
    nth_error grouped_structs k = Some (map (fun e => fst (fst e)) kept)
    /\ nth_error grouped_temps k = Some (map (fun e => snd (fst e)) kept)
    /\ nth_error grouped_dates k = Some (map snd kept).
Proof.
  rewrite get_unique_struct_info_eq. cbv zeta. intros framework Hk.
  rewrite !map_map.
  repeat split;
    (erewrite map_nth_error by eassumption; rewrite struct_class_eq;
     reflexivity).
Qed.

Lemma groups_length (stoich_refs : list Structure) (temps : list float)
  (dates : list (option string)) :
  let '(grouped_structs, grouped_temps, grouped_dates) :=
    get_unique_struct_info stoich_refs temps dates in
  length grouped_structs = length (unique_frameworks stoich_refs)
  /\ length grouped_temps = length (unique_frameworks stoich_refs)
  /\ length grouped_dates = length (unique_frameworks stoich_refs).
Proof.
  rewrite get_unique_struct_info_eq. cbv beta iota zeta.
  now rewrite !length_map.
Qed.

End GroupingFacts.

(** ** Strings: a line that holds a marker has a last token *)

Lemma split_head_not_space (c : ascii) (rest : string) :
  is_space c = false -> split (String c rest) <> [].
Proof.
  intros Hc. simpl. rewrite Hc.
  destruct rest as [|c' rest']; [discriminate|].
  destruct (is_space c'); [discriminate|].
  destruct (split (String c' rest')); discriminate.
Qed.

Lemma split_tail_not_nil (c : ascii) (rest : string) :
  split rest <> [] -> split (String c rest) <> [].
Proof.
  intros Hrest. destruct (is_space c) eqn:Hc.
  - simpl. rewrite Hc. exact Hrest.
  - now apply split_head_not_space.
Qed.

Lemma contains_split_not_nil (c : ascii) (marker line : string) :
  is_space c = false ->
  contains (String c marker) line = true -> split line <> [].
Proof.
  intros Hc. induction line as [|c0 rest IH]; simpl.
  - discriminate.
  - destruct (ascii_dec c c0) as [<- | Hneq].
    + intros _. change (split (String c rest) <> []).
      now apply split_head_not_space.
    + intros Hin. apply split_tail_not_nil, IH. exact Hin.
Qed.

Lemma item_last_not_nil {A : Type} (l : list A) :
  l <> [] -> exists x, item_last l = Ok x.
Proof.
  induction l as [|x rest IH]; intros Hne; [contradiction|].
  destruct rest as [|y rest'].
  - exists x. reflexivity.
  - destruct IH as [z Hz]; [discriminate|]. exists z. exact Hz.
Qed.

Lemma marker_line_has_token (marker line : string) :
  marker = date_marker \/ marker = temp_marker ->
  contains marker line = true -> exists tok, item_last (split line) = Ok tok.
Proof.
  intros Hm Hin. apply item_last_not_nil.
  destruct Hm as [-> | ->];
    (eapply contains_split_not_nil; [|exact Hin]); reflexivity.
Qed.

(** ** Ingestion: parse_measurement_conditions and get_stoichiometric_info *)

Section IngestionFacts.
Context `{Pymatgen} `{PyFloat}.

(** A line without markers leaves the pair unchanged. *)
Lemma scan_line_no_marker (st : float * option string) (line : string) :
  contains date_marker line = false -> contains temp_marker line = false ->
  scan_line st line = Ok st.
Proof.
  intros Hd Ht. unfold scan_line. destruct st as [temp date].
  rewrite Hd, Ht. reflexivity.
Qed.

(** The only exception a line can raise is the [ValueError] of [float]. *)
Lemma scan_line_raises (st : float * option string) (line : string) (e : exn) :
  scan_line st line = Raise e -> e = ValueError.
Proof.
  unfold scan_line. destruct st as [temp date].
  destruct (contains date_marker line) eqn:Hd;
    destruct (contains temp_marker line) eqn:Ht; simpl.
  - destruct (marker_line_has_token date_marker line (or_introl eq_refl) Hd) as [tok ->].
    simpl. unfold float_of_token. destruct (parse_float tok); simpl.
    + discriminate.
    + intros Heq. injection Heq as <-. reflexivity.
  - destruct (marker_line_has_token date_marker line (or_introl eq_refl) Hd) as [tok ->].
    simpl. discriminate.
  - destruct (marker_line_has_token temp_marker line (or_intror eq_refl) Ht) as [tok ->].
    simpl. unfold float_of_token. destruct (parse_float tok); simpl.
    + discriminate.
    + intros Heq. injection Heq as <-. reflexivity.
  - discriminate.
Qed.

(** A temperature line whose last token [float] rejects raises, whatever was
    read before it. *)
Lemma scan_line_malformed (st : float * option string) (line tok : string) :
  contains temp_marker line = true ->
  item_last (split line) = Ok tok -> parse_float tok = None ->
  scan_line st line = Raise ValueError.
Proof.
  intros Ht Htok Hbad. unfold scan_line. destruct st as [temp date].
  rewrite Ht, Htok. simpl. unfold float_of_token. rewrite Hbad.
  destruct (contains date_marker line); reflexivity.
Qed.

Lemma scan_lines_malformed (lines : list string) (line tok : string) :
  In line lines -> contains temp_marker line = true ->
  item_last (split line) = Ok tok -> parse_float tok = None ->
  forall st, for_loop scan_line lines st = Raise ValueError.
Proof.
  intros Hin Ht Htok Hbad.
  induction lines as [|l0 rest IH]; intros st; simpl; [contradiction|].
  destruct (scan_line st l0) as [st'|e] eqn:Hscan; simpl.
  - destruct Hin as [-> | Hin].
    + rewrite (scan_line_malformed st line tok Ht Htok Hbad) in Hscan. discriminate.
    + now apply IH.
  - apply scan_line_raises in Hscan. now subst.
Qed.

Lemma tabulate_loop (dir : cif_directory) :
  forall ss0 ts0 ds0 ss ts ds,
    for_loop tabulate dir (ss0, ts0, ds0) = Ok (ss, ts, ds) <->
    exists rows,
      Forall (fun f => exists struct, from_file f = Ok struct) dir
      /\ Forall2 row_of (filter file_is_ordered dir) rows
      /\ ss = ss0 ++ map (fun r => fst (fst r)) rows
      /\ ts = ts0 ++ map (fun r => snd (fst r)) rows
      /\ ds = ds0 ++ map snd rows.
Proof.
  induction dir as [|f rest IH]; intros ss0 ts0 ds0 ss ts ds; simpl.
  - split.
    + intros Heq. injection Heq as <- <- <-. exists [].
      simpl. rewrite !app_nil_r. repeat split; constructor.
    + intros [rows [_ [Hrows [-> [-> ->]]]]]. inversion Hrows; subst.
      simpl. now rewrite !app_nil_r.
  - unfold file_is_ordered at 1.
    destruct (from_file f) as [struct|e] eqn:Hparse; simpl.
    + destruct (is_ordered struct) eqn:Hord.
      * destruct (parse_measurement_conditions f) as [[t d]|e] eqn:Hcond; simpl.
        -- rewrite IH. split.
           ++ intros [rows [Hall [Hrows [-> [-> ->]]]]].
              exists ((struct, t, d) :: rows). simpl.
              rewrite <- !app_assoc. repeat split; try reflexivity.
              ** constructor; [now exists struct | assumption].
              ** constructor; [|assumption]. split; simpl; assumption.
           ++ intros [rows [Hall [Hrows [-> [-> ->]]]]].
              inversion Hrows as [|f' [[s' t'] d'] r' rows' [Hs Htd] Hrest];
                subst. simpl in Hs, Htd.
              rewrite Hparse in Hs. injection Hs as <-.
              rewrite Hcond in Htd. injection Htd as <- <-.
              exists rows'. simpl. rewrite <- !app_assoc.
              repeat split; try reflexivity; try assumption.
              now inversion Hall.
        -- split; [discriminate|].
           intros [rows [_ [Hrows _]]].
           inversion Hrows as [|f' row r' rows' [_ Htd] Hrest]; subst.
           rewrite Hcond in Htd. discriminate.
      * simpl. rewrite IH. split.
        -- intros [rows [Hall [Hrows Heqs]]]. exists rows.
           repeat split; try tauto.
           constructor; [now exists struct | assumption].
        -- intros [rows [Hall [Hrows Heqs]]]. exists rows.
           repeat split; try tauto. now inversion Hall.
    + split; [discriminate|].
      intros [rows [Hall _]]. inversion Hall as [|f' r' [s Hs] _]; subst.
      rewrite Hparse in Hs. discriminate.
Qed.

(** A loop raises when the body raises on one of its items from every
    state. *)
Lemma for_loop_raises {A St : Type} (body : St -> A -> result St)
  (items : list A) (x : A) :
  In x items -> (forall st, exists e, body st x = Raise e) ->
  forall st, exists e, for_loop body items st = Raise e.
Proof.
  intros Hin Hx. induction items as [|x0 rest IH]; intros st; simpl.
  - contradiction.
  - destruct (body st x0) as [st'|e0] eqn:Hb; simpl.
    + destruct Hin as [-> | Hin].
      * destruct (Hx st) as [e He]. rewrite He in Hb. discriminate.
      * now apply IH.
    + now exists e0.
Qed.

End IngestionFacts.

(** ** The order of binary64, from the specification of the comparisons *)

Lemma SFcompare_refl (f : spec_float) :
  f <> S754_nan -> SFcompare f f = Some Eq.
Proof.
  destruct f as [s|s| |s m e]; simpl; intros Hn; try congruence; sf_signs.
  all: pos_cmp; rewrite Z.compare_refl, Pos.compare_refl; reflexivity.
Qed.

Lemma SFcompare_antisym (f g : spec_float) :
  SFcompare g f = option_map CompOpp (SFcompare f g).
Proof.
  destruct f as [s|s| |s m e], g as [s'|s'| |s' m' e']; simpl; sf_signs.
  all: pos_cmp; rewrite (Z.compare_antisym e e'), (Pos.compare_antisym m m');
    destruct (e ?= e')%Z; simpl; try reflexivity;
    destruct (m ?= m')%positive; reflexivity.
Qed.

Lemma SFleb_trans (f g h : spec_float) :
  SFleb f g = true -> SFleb g h = true -> SFleb f h = true.
Proof.
  unfold SFleb.
  destruct f as [s|s| |s m e], g as [s'|s'| |s' m' e'],
           h as [s''|s''| |s'' m'' e'']; simpl; sf_signs.
  all: pos_cmp;
    destruct (Z.compare_spec e e'), (Z.compare_spec e' e''),
             (Z.compare_spec e e'');
    simpl; try discriminate; try reflexivity; try lia; subst;
    destruct (Pos.compare_spec m m'), (Pos.compare_spec m' m''),
             (Pos.compare_spec m m'');
    simpl; try discriminate; try reflexivity; try lia.
Qed.

Lemma SFabs_eqb (f g : spec_float) :
  SFeqb (SFabs f) (SFabs g) = SFeqb f g || SFeqb f (SFopp g).
Proof.
  unfold SFeqb.
  destruct f as [s|s| |s m e], g as [s'|s'| |s' m' e']; simpl; sf_signs.
  all: pos_cmp; destruct (e ?= e')%Z; simpl; try reflexivity;
    destruct (m ?= m')%positive; reflexivity.
Qed.

Local Open Scope float_scope.

Lemma float_not_nan (x : float) :
  PrimFloat.is_nan x = false <-> Prim2SF x <> S754_nan.
Proof.
  unfold PrimFloat.is_nan. rewrite eqb_spec. unfold SFeqb. split.
  - intros Hx Hnan. rewrite Hnan in Hx. discriminate.
  - intros Hx. now rewrite SFcompare_refl.
Qed.

Lemma float_leb_refl (x : float) :
  PrimFloat.is_nan x = false -> (x <=? x) = true.
Proof.
  intros Hx. apply float_not_nan in Hx.
  rewrite leb_spec. unfold SFleb. now rewrite SFcompare_refl.
Qed.

Lemma float_leb_trans (x y z : float) :
  (x <=? y) = true -> (y <=? z) = true -> (x <=? z) = true.
Proof. rewrite !leb_spec. apply SFleb_trans. Qed.

Lemma float_leb_not_nan (x y : float) :
  (x <=? y) = true ->
  PrimFloat.is_nan x = false /\ PrimFloat.is_nan y = false.
Proof.
  rewrite leb_spec, !float_not_nan. unfold SFleb.
  destruct (Prim2SF x), (Prim2SF y); simpl; intros Hle;
    try discriminate; split; discriminate.
Qed.

Lemma float_ltb_leb (x y : float) : (x <? y) = true -> (x <=? y) = true.
Proof.
  rewrite ltb_spec, leb_spec. unfold SFltb, SFleb.
  destruct (SFcompare (Prim2SF x) (Prim2SF y)) as [[ | | ]|];
    intros; try discriminate; reflexivity.
Qed.

Lemma float_ltb_not_leb (x y : float) :
  (x <? y) = true -> (y <=? x) = false.
Proof.
  rewrite ltb_spec, leb_spec. unfold SFltb, SFleb.
  rewrite (SFcompare_antisym (Prim2SF x) (Prim2SF y)).
  destruct (SFcompare (Prim2SF x) (Prim2SF y)) as [[ | | ]|]; simpl;
    intros; try discriminate; reflexivity.
Qed.

Lemma float_not_ltb_leb (x y : float) :
  PrimFloat.is_nan x = false -> PrimFloat.is_nan y = false ->
  (x <? y) = false -> (y <=? x) = true.
Proof.
  rewrite !float_not_nan, ltb_spec, leb_spec. unfold SFltb, SFleb.
  rewrite (SFcompare_antisym (Prim2SF x) (Prim2SF y)).
  intros Hx Hy.
  destruct (SFcompare (Prim2SF x) (Prim2SF y)) as [[ | | ]|] eqn:Hc; simpl;
    intros; try discriminate; try reflexivity.
  destruct (Prim2SF x), (Prim2SF y); simpl in Hc; congruence.
Qed.

Lemma float_eqb_leb (x y : float) :
  (x =? y) = true <-> (x <=? y) = true /\ (y <=? x) = true.
Proof.
  rewrite eqb_spec, !leb_spec. unfold SFeqb, SFleb.
  rewrite (SFcompare_antisym (Prim2SF x) (Prim2SF y)).
  destruct (SFcompare (Prim2SF x) (Prim2SF y)) as [[ | | ]|]; simpl;
    intuition discriminate.
Qed.

Lemma float_abs_eqb (x y : float) :
  (PrimFloat.abs x =? PrimFloat.abs y) = (x =? y) || (x =? - y).
Proof.
  rewrite !eqb_spec, !abs_spec, opp_spec. apply SFabs_eqb.
Qed.

Local Close Scope float_scope.

(** ** Facts about [sorted] *)

Section SortedFacts.
Context {A K : Type}.
Variable lt : K -> K -> result bool.
Variable key : A -> K.

Lemma insert_by_perm (x : A) (l : list A) :
  forall l', insert_by lt key x l = Ok l' -> Permutation (x :: l) l'.
Proof.
  induction l as [|y rest IH]; intros l'; simpl.
  - intros Heq. injection Heq as <-. apply Permutation_refl.
  - destruct (lt (key y) (key x)) as [[|]|e]; simpl; try discriminate.
    + destruct (insert_by lt key x rest) as [r|e]; simpl; try discriminate.
      intros Heq. injection Heq as <-.
      eapply Permutation_trans; [apply perm_swap|].
      apply perm_skip. now apply IH.
    + intros Heq. injection Heq as <-. apply Permutation_refl.
Qed.

Lemma sorted_perm (l : list A) :
  forall l', sorted lt key l = Ok l' -> Permutation l l'.
Proof.
  induction l as [|x rest IH]; intros l'; simpl.
  - intros Heq. injection Heq as <-. constructor.
  - destruct (sorted lt key rest) as [r|e]; simpl; try discriminate.
    intros Hins. apply insert_by_perm in Hins.
    eapply Permutation_trans; [|exact Hins]. apply perm_skip. now apply IH.
Qed.

(** Sorting succeeds and sorts when [lt] decides an order [le] on the keys
    that occur. *)
Variable good : K -> Prop.
Variable le : K -> K -> Prop.
Hypothesis lt_total : forall a b, good a -> good b -> exists r, lt a b = Ok r.
Hypothesis lt_true : forall a b, lt a b = Ok true -> le a b.
Hypothesis lt_false :
  forall a b, good a -> good b -> lt a b = Ok false -> le b a.
Hypothesis le_trans : forall a b c, le a b -> le b c -> le a c.

Lemma insert_by_sorted (x : A) (l : list A) :
  good (key x) -> Forall (fun y => good (key y)) l ->
  StronglySorted (key_le key le) l ->
  exists l', insert_by lt key x l = Ok l' /\ StronglySorted (key_le key le) l'.
Proof.
  intros Hx. induction l as [|y rest IH]; intros Hgood Hsorted; simpl.
  - exists [x]. split; [reflexivity|]. repeat constructor.
  - inversion Hgood as [|y' r' Hy Hrest]; subst.
    inversion Hsorted as [|y' r' Hsr Hle]; subst.
    destruct (lt_total _ _ Hy Hx) as [[|] Hlt]; rewrite Hlt; simpl.
    + destruct (IH Hrest Hsr) as [r [Hins Hr]]. rewrite Hins. simpl.
      exists (y :: r). split; [reflexivity|]. constructor; [assumption|].
      apply insert_by_perm in Hins.
      apply Forall_forall. intros z Hz.
      apply Permutation_sym in Hins.
      apply (Permutation_in _ Hins) in Hz. destruct Hz as [<- | Hz].
      * now apply lt_true.
      * rewrite Forall_forall in Hle. now apply Hle.
    + exists (x :: y :: rest). split; [reflexivity|].
      assert (Hxy : key_le key le x y) by (now apply lt_false).
      constructor; [assumption|]. constructor; [assumption|].
      eapply Forall_impl; [|exact Hle]. intros z Hyz.
      unfold key_le in *. eapply le_trans; eassumption.
Qed.

Lemma sorted_sorted (l : list A) :
  Forall (fun y => good (key y)) l ->
  exists l', sorted lt key l = Ok l' /\ Permutation l l'
             /\ StronglySorted (key_le key le) l'.
Proof.
  induction l as [|x rest IH]; intros Hgood; simpl.
  - exists []. repeat split; constructor.
  - inversion Hgood as [|x' r' Hx Hrest]; subst.
    destruct (IH Hrest) as [r [Hr [Hperm Hsorted]]]. rewrite Hr. simpl.
    destruct (insert_by_sorted x r) as [l' [Hins Hl']]; try assumption.
    + apply Forall_forall. intros z Hz.
      rewrite Forall_forall in Hrest. apply Hrest.
      apply Permutation_sym in Hperm. now apply (Permutation_in _ Hperm).
    + exists l'. repeat split; try assumption.
      eapply Permutation_trans; [apply perm_skip; exact Hperm|].
      now apply insert_by_perm in Hins.
Qed.

End SortedFacts.

Lemma sorted_first_least {A : Type} (R : A -> A -> Prop) (x : A)
  (rest : list A) :
  StronglySorted R (x :: rest) -> forall y, In y rest -> R x y.
Proof.
  intros Hs y Hy. inversion Hs as [|x' r' _ Hall]; subst.
  rewrite Forall_forall in Hall. now apply Hall.
Qed.

Lemma sorted_last_greatest {A : Type} (R : A -> A -> Prop) (l : list A) :
  StronglySorted R l ->
  forall z, item_last l = Ok z -> forall y, In y l -> y = z \/ R y z.
Proof.
  induction 1 as [|x rest Hs IH Hall]; intros z Hz y Hy.
  - contradiction.
  - destruct rest as [|x' rest'].
    + simpl in Hz. injection Hz as <-. destruct Hy as [-> | []]. now left.
    + change (item_last (x' :: rest') = Ok z) in Hz.
      destruct Hy as [<- | Hy].
      * right. rewrite Forall_forall in Hall. apply Hall.
        clear - Hz. revert x' Hz.
        induction rest' as [|w r IHr]; intros x' Hz.
        -- simpl in Hz. injection Hz as <-. now left.
        -- right. apply (IHr w). exact Hz.
      * now apply IH.
Qed.

Lemma item_last_In {A : Type} (l : list A) (z : A) :
  item_last l = Ok z -> In z l.
Proof.
  induction l as [|x rest IH]; [discriminate|].
  destruct rest as [|y rest'].
  - simpl. intros Heq. injection Heq as <-. now left.
  - intros Hz. right. now apply IH.
Qed.

(** ** The order of strings and of dates *)

Lemma ascii_compare_trans (a b c : ascii) (r : comparison) :
  Ascii.compare a b = r -> Ascii.compare b c = r -> Ascii.compare a c = r.
Proof.
  unfold Ascii.compare. destruct r; intros Hab Hbc.
  - apply N.compare_eq_iff in Hab, Hbc. apply N.compare_eq_iff. congruence.
  - rewrite N.compare_lt_iff in *. lia.
  - rewrite N.compare_gt_iff in *. lia.
Qed.

Lemma string_compare_refl (s : string) : String.compare s s = Eq.
Proof.
  induction s as [|c s IH]; simpl; [reflexivity|].
  unfold Ascii.compare. now rewrite N.compare_refl.
Qed.

Lemma string_leb_trans (s1 s2 s3 : string) :
  String.leb s1 s2 = true -> String.leb s2 s3 = true ->
  String.leb s1 s3 = true.
Proof.
  unfold String.leb. revert s2 s3.
  induction s1 as [|c1 s1 IH]; intros [|c2 s2] [|c3 s3]; simpl;
    try reflexivity; try discriminate.
  destruct (Ascii.compare c1 c2) eqn:H12; try discriminate;
    destruct (Ascii.compare c2 c3) eqn:H23; try discriminate.
  - rewrite (ascii_compare_trans _ _ _ _ H12 H23). apply IH.
  - apply Ascii.compare_eq_iff in H12. subst. rewrite H23. reflexivity.
  - apply Ascii.compare_eq_iff in H23. subst. rewrite H12. reflexivity.
  - rewrite (ascii_compare_trans _ _ _ _ H12 H23). reflexivity.
Qed.

Lemma string_ltb_leb (s1 s2 : string) :
  String.ltb s1 s2 = true -> String.leb s1 s2 = true.
Proof.
  unfold String.ltb, String.leb.
  destruct (String.compare s1 s2); intros; try discriminate; reflexivity.
Qed.

Lemma string_not_ltb_leb (s1 s2 : string) :
  String.ltb s1 s2 = false -> String.leb s2 s1 = true.
Proof.
  unfold String.ltb, String.leb. rewrite (String.compare_antisym s1 s2).
  destruct (String.compare s2 s1); simpl; intros; try discriminate;
    reflexivity.
Qed.

Lemma date_lt_total (a b : option string) :
  is_string a -> is_string b -> exists r, date_lt a b = Ok r.
Proof.
  destruct a as [x|], b as [y|]; unfold is_string; intros Ha Hb;
    try congruence. now exists (String.ltb x y).
Qed.

Lemma date_lt_true (a b : option string) :
  date_lt a b = Ok true -> date_le a b.
Proof.
  destruct a as [x|], b as [y|]; simpl; try discriminate.
  intros Heq. injection Heq as Heq. now apply string_ltb_leb.
Qed.

Lemma date_lt_false (a b : option string) :
  is_string a -> is_string b -> date_lt a b = Ok false -> date_le b a.
Proof.
  destruct a as [x|], b as [y|]; simpl; try discriminate.
  intros _ _ Heq. injection Heq as Heq. now apply string_not_ltb_leb.
Qed.

Lemma date_le_trans (a b c : option string) :
  date_le a b -> date_le b c -> date_le a c.
Proof.
  destruct a as [x|], b as [y|], c as [z|]; simpl; try contradiction.
  apply string_leb_trans.
Qed.

Lemma date_le_refl (a : option string) : is_string a -> date_le a a.
Proof.
  destruct a as [x|]; unfold is_string; [intros _ | congruence].
  simpl. unfold String.leb. now rewrite string_compare_refl.
Qed.

(** Sorting by date raises only [TypeError], and does raise it as soon as
    two or more items are sorted and one of the dates is [None]. *)
Section DateSort.
Context {A : Type}.
Variable key : A -> option string.

Lemma insert_by_date_raises (x : A) (l : list A) (e : exn) :
  insert_by date_lt key x l = Raise e -> e = TypeError.
Proof.
  induction l as [|y rest IH]; simpl; [discriminate|].
  destruct (key y) as [dy|], (key x) as [dx|]; simpl;
    try (intros Heq; injection Heq as <-; reflexivity).
  destruct (String.ltb dy dx); [|discriminate].
  destruct (insert_by date_lt key x rest) as [r|e0]; simpl; [discriminate|].
  intros Heq. injection Heq as <-. now apply IH.
Qed.

Lemma sorted_date_raises (l : list A) (e : exn) :
  sorted date_lt key l = Raise e -> e = TypeError.
Proof.
  induction l as [|x rest IH]; simpl; [discriminate|].
  destruct (sorted date_lt key rest) as [r|e0]; simpl.
  - apply insert_by_date_raises.
  - intros Heq. injection Heq as <-. now apply IH.
Qed.

Lemma insert_by_None (x y : A) (rest : list A) :
  key x = None \/ key y = None ->
  insert_by date_lt key x (y :: rest) = Raise TypeError.
Proof.
  simpl. destruct (key y) as [dy|], (key x) as [dx|]; simpl;
    intros [Hx | Hy]; try discriminate; reflexivity.
Qed.

Lemma sorted_date_None (l : list A) :
  2 <= length l -> (exists x, In x l /\ key x = None) ->
  sorted date_lt key l = Raise TypeError.
Proof.
  induction l as [|x rest IH]; simpl; intros Hlen [z [Hz Hnone]]; [lia|].
  destruct (sorted date_lt key rest) as [r|e] eqn:Hrest; simpl.
  - pose proof (Permutation_length (sorted_perm _ _ _ _ Hrest)) as Hlen'.
    destruct r as [|y r']; [simpl in Hlen'; lia|].
    apply insert_by_None.
    destruct Hz as [<- | Hz]; [now left|].
    destruct rest as [|y0 [|y1 rest']]; [contradiction| |].
    + simpl in Hrest. injection Hrest as <- <-.
      destruct Hz as [<- | []]. now right.
    + assert (Habs : Ok (y :: r') = @Raise (list A) TypeError).
      { apply IH; [simpl; lia | now exists z]. }
      discriminate.
  - apply sorted_date_raises in Hrest. now subst.
Qed.

End DateSort.

(** ** Selection: the two sorts of get_recent_RT_entry *)

Lemma Permutation_filter_same {A : Type} (p : A -> bool) (l l' : list A) :
  Permutation l l' -> Permutation (filter p l) (filter p l').
Proof.
  induction 1 as [|x l l' Hp IH|x y l|l l' l'' H1 IH1 H2 IH2]; simpl.
  - constructor.
  - destruct (p x); [now constructor | assumption].
  - destruct (p x), (p y); try apply Permutation_refl. apply perm_swap.
  - eapply Permutation_trans; eassumption.
Qed.

Lemma two_distinct_members {A : Type} (a b : A) (l : list A) :
  In a l -> In b l -> a <> b -> 2 <= length l.
Proof.
  destruct l as [|x [|y rest]]; simpl; intros Ha Hb Hneq.
  - contradiction.
  - destruct Ha as [<- | []], Hb as [<- | []]. congruence.
  - lia.
Qed.

Lemma combine_map {A B C : Type} (f : A -> B) (g : A -> C) (l : list A) :
  combine (map f l) (map g l) = map (fun x => (f x, g x)) l.
Proof.
  induction l as [|x rest IH]; simpl; [reflexivity | now rewrite IH].
Qed.

Lemma for_loop_ext {A St : Type} (body body' : St -> A -> result St)
  (items : list A) :
  (forall st x, body st x = body' st x) ->
  forall st, for_loop body items st = for_loop body' items st.
Proof.
  intros Hext. induction items as [|x rest IH]; intros st; simpl.
  - reflexivity.
  - rewrite Hext. destruct (body' st x); simpl; [apply IH | reflexivity].
Qed.

Section SelectionFacts.
Context {Cmpd : Type}.

Local Abbreviation entry := (@entry Cmpd).

Lemma candidates_eq (best : entry) (sorted_info : list entry) :
  candidates best sorted_info
  = (map entry_struct (filter (tied best) sorted_info),
     map entry_date (filter (tied best) sorted_info)).
Proof.
  unfold candidates.
  assert (Hgen : forall l cs cd,
    fold_left (fun (acc : list Cmpd * list (option string)) (e : entry) =>
                 let '(candidate_structs, candidate_dates) := acc in
                 if PrimFloat.eqb (entry_temp e) (entry_temp best)
                 then (candidate_structs ++ [entry_struct e],
                       candidate_dates ++ [entry_date e])
                 else (candidate_structs, candidate_dates)) l (cs, cd)
    = (cs ++ map entry_struct (filter (tied best) l),
       cd ++ map entry_date (filter (tied best) l))).
  { induction l as [|e rest IH]; intros cs cd; simpl.
    - now rewrite !app_nil_r.
    - change (tied best e)
        with (PrimFloat.eqb (entry_temp e) (entry_temp best)).
      destruct (PrimFloat.eqb (entry_temp e) (entry_temp best)); rewrite IH;
        simpl; [now rewrite <- !app_assoc | reflexivity]. }
  apply Hgen.
Qed.

Lemma recent_RT_entry_unfold (sc : list Cmpd) (tc : list float)
  (dc : list (option string)) :
  recent_RT_entry sc tc dc
  = (sorted_info <- sorted float_lt entry_temp
                           (map normalize (zip3 sc tc dc)) ;;
     best_entry <- item_first sorted_info ;;
     sorted_info <- sorted date_lt snd
                      (map (fun e => (entry_struct e, entry_date e))
                           (filter (tied best_entry) sorted_info)) ;;
     last_entry <- item_last sorted_info ;;
     Ok (fst last_entry))%py.
Proof.
  unfold recent_RT_entry. rewrite zip3_map_mid.
  apply bind_congr; [reflexivity|]. intros l1.
  apply bind_congr; [reflexivity|]. intros best.
  rewrite candidates_eq, combine_map. reflexivity.
Qed.

Lemma get_recent_RT_entry_eq (gs : list (list Cmpd)) (gt : list (list float))
  (gd : list (list (option string))) :
  get_recent_RT_entry gs gt gd
  = for_loop (fun st g => (y <- select g ;; Ok (st ++ [y]))%py)
             (zip3 gs gt gd) [].
Proof.
  unfold get_recent_RT_entry. apply for_loop_ext.
  intros st [[sc tc] dc]. reflexivity.
Qed.

(** The groups are selected one by one, in order. *)
Lemma get_recent_RT_entry_groups (gs : list (list Cmpd))
  (gt : list (list float)) (gd : list (list (option string)))
  (out : list Cmpd) :
  get_recent_RT_entry gs gt gd = Ok out <->
  Forall2 (fun g final => select g = Ok final) (zip3 gs gt gd) out.
Proof.
  rewrite get_recent_RT_entry_eq, for_loop_collect. simpl. split.
  - intros [ys [Hall ->]]. exact Hall.
  - intros Hall. now exists out.
Qed.

Lemma get_recent_RT_entry_raises (gs : list (list Cmpd))
  (gt : list (list float)) (gd : list (list (option string)))
  (g : list Cmpd * list float * list (option string)) (e : exn) :
  In g (zip3 gs gt gd) -> select g = Raise e ->
  exists e', get_recent_RT_entry gs gt gd = Raise e'.
Proof.
  intros Hin Hg. rewrite get_recent_RT_entry_eq.
  eapply for_loop_collect_raises; eassumption.
Qed.

Local Open Scope float_scope.

(** The first sort, on temperatures none of which is NaN. *)
Lemma first_sort (l : list entry) :
  l <> [] -> Forall (fun e => PrimFloat.is_nan (entry_temp e) = false) l ->
  exists best rest,
    sorted float_lt entry_temp l = Ok (best :: rest)
    /\ Permutation l (best :: rest)
    /\ forall x, In x l -> (entry_temp best <=? entry_temp x) = true.
Proof.
  intros Hne Hnum.
  destruct (sorted_sorted float_lt (@entry_temp Cmpd)
              (fun k => PrimFloat.is_nan k = false)
              (fun a b => (a <=? b) = true)) with (l := l)
    as [l' [Hsort [Hperm Hsorted]]].
  - intros a b _ _. now exists (a <? b).
  - intros a b Heq. injection Heq as Heq. now apply float_ltb_leb.
  - intros a b Ha Hb Heq. injection Heq as Heq. now apply float_not_ltb_leb.
  - intros a b c. apply float_leb_trans.
  - exact Hnum.
  - destruct l' as [|best rest].
    + apply Permutation_sym, Permutation_nil in Hperm. contradiction.
    + exists best, rest. repeat split; try assumption.
      intros x Hx. apply (Permutation_in _ Hperm) in Hx.
      destruct Hx as [<- | Hx].
      * apply float_leb_refl. rewrite Forall_forall in Hnum. apply Hnum.
        apply Permutation_sym in Hperm. apply (Permutation_in _ Hperm).
        now left.
      * now apply (sorted_first_least _ _ _ Hsorted).
Qed.

(** The second sort, on dates that are all strings. *)
Lemma second_sort (l : list (Cmpd * option string)) :
  l <> [] -> Forall (fun c => is_string (snd c)) l ->
  exists l' z,
    sorted date_lt snd l = Ok l' /\ item_last l' = Ok z /\ In z l
    /\ forall y, In y l -> date_le (snd y) (snd z).
Proof.
  intros Hne Hstr.
  destruct (sorted_sorted date_lt (@snd Cmpd (option string))
              is_string date_le) with (l := l)
    as [l' [Hsort [Hperm Hsorted]]].
  - apply date_lt_total.
  - apply date_lt_true.
  - apply date_lt_false.
  - apply date_le_trans.
  - exact Hstr.
  - destruct (item_last_not_nil l') as [z Hz].
    { intros ->. apply Permutation_sym, Permutation_nil in Hperm.
      contradiction. }
    assert (Hzl : In z l).
    { apply Permutation_sym in Hperm. apply (Permutation_in _ Hperm).
      now apply item_last_In. }
    exists l', z. repeat split; try assumption.
    intros y Hy. apply (Permutation_in _ Hperm) in Hy.
    destruct (sorted_last_greatest _ _ Hsorted z Hz y Hy) as [-> | Hle].
    + apply date_le_refl. rewrite Forall_forall in Hstr. now apply Hstr.
    + exact Hle.
Qed.

End SelectionFacts.

Section SelectionOfOneGroup.
Context {Cmpd : Type}.

Local Abbreviation entry := (@entry Cmpd).
Local Open Scope float_scope.

Lemma tied_refl (best : entry) :
  PrimFloat.is_nan (entry_temp best) = false -> tied best best = true.
Proof.
  unfold tied, PrimFloat.is_nan. intros Hx.
  now destruct (entry_temp best =? entry_temp best).
Qed.

(** Among entries none of which is below [best], the ties with [best] are
    the entries that are not above it. *)
Lemma tied_iff_least (best x : entry) :
  (entry_temp best <=? entry_temp x) = true ->
  tied best x = true <-> (entry_temp x <=? entry_temp best) = true.
Proof.
  intros Hle. unfold tied. rewrite float_eqb_leb. tauto.
Qed.

Lemma normalize_fields (e : entry) :
  entry_struct (normalize e) = entry_struct e
  /\ entry_temp (normalize e) = deviation e
  /\ entry_date (normalize e) = entry_date e.
Proof. destruct e as [[s t] d]. repeat split. Qed.

(** One group whose deviations are numbers and whose dates are strings. *)
Lemma recent_RT_entry_spec (sc : list Cmpd) (tc : list float)
  (dc : list (option string)) :
  zip3 sc tc dc <> [] ->
  (forall e, In e (zip3 sc tc dc) ->
             PrimFloat.is_nan (deviation e) = false
             /\ is_string (entry_date e)) ->
  exists e,
    In e (zip3 sc tc dc)
    /\ recent_RT_entry sc tc dc = Ok (entry_struct e)
    /\ (forall e', In e' (zip3 sc tc dc) ->
                   (deviation e <=? deviation e') = true)
    /\ (forall e', In e' (zip3 sc tc dc) ->
                   (deviation e' =? deviation e) = true ->
                   date_le (entry_date e') (entry_date e)).
Proof.
  intros Hne Hwf. rewrite recent_RT_entry_unfold.
  set (es := zip3 sc tc dc) in *.
  destruct (first_sort (map normalize es)) as [best [rest [Hsort [Hperm Hmin]]]].
  { destruct es; [contradiction | discriminate]. }
  { apply Forall_forall. intros ne Hin. apply in_map_iff in Hin.
    destruct Hin as [e [<- He]].
    destruct (normalize_fields e) as [_ [-> _]]. now apply Hwf. }
  rewrite Hsort. cbn [bind item_first].
  set (cands := filter (tied best) (best :: rest)).
  assert (Hbest_in : In best (map normalize es)).
  { apply Permutation_sym in Hperm. apply (Permutation_in _ Hperm). now left. }
  assert (Hbest_num : PrimFloat.is_nan (entry_temp best) = false).
  { apply in_map_iff in Hbest_in. destruct Hbest_in as [e [<- He]].
    destruct (normalize_fields e) as [_ [-> _]]. now apply Hwf. }
  assert (Hcands : forall ne, In ne cands <->
                              In ne (map normalize es) /\ tied best ne = true).
  { intros ne. unfold cands. rewrite filter_In. split; intros [Hin Ht].
    - split; [|assumption].
      apply Permutation_sym in Hperm. now apply (Permutation_in _ Hperm).
    - split; [|assumption]. now apply (Permutation_in _ Hperm). }
  destruct (second_sort
              (map (fun e : entry => (entry_struct e, entry_date e)) cands))
    as [l2 [z [Hsort2 [Hlast [Hz Hmax]]]]].
  { assert (Hin : In best cands)
      by (apply Hcands; split; [assumption | now apply tied_refl]).
    destruct cands; [contradiction | discriminate]. }
  { apply Forall_forall. intros c Hc. apply in_map_iff in Hc.
    destruct Hc as [ne [<- Hne']]. apply Hcands in Hne'.
    destruct Hne' as [Hin _]. apply in_map_iff in Hin.
    destruct Hin as [e [<- He]].
    change (is_string (entry_date (normalize e))).
    destruct (normalize_fields e) as [_ [_ ->]]. now apply Hwf. }
  rewrite Hsort2. cbn [bind]. rewrite Hlast. cbn [bind fst].
  apply in_map_iff in Hz. destruct Hz as [ne [<- Hne']].
  pose proof Hne' as Hne_c. apply Hcands in Hne'. destruct Hne' as [Hin Htie].
  apply in_map_iff in Hin. destruct Hin as [e [<- He]].
  destruct (normalize_fields e) as [Hs [Ht Hd]].
  exists e. simpl. rewrite Hs. repeat split; try assumption.
  - intros e' He'.
    apply tied_iff_least in Htie; [|apply Hmin; now apply in_map].
    rewrite Ht in Htie.
    eapply float_leb_trans; [exact Htie|].
    destruct (normalize_fields e') as [_ [<- _]].
    apply Hmin. now apply in_map.
  - intros e' He' Heq.
    assert (Hc' : In (normalize e') cands).
    { apply Hcands. split; [now apply in_map|].
      apply tied_iff_least; [apply Hmin; now apply in_map|].
      destruct (normalize_fields e') as [_ [-> _]].
      apply float_eqb_leb in Heq. destruct Heq as [Hle _].
      eapply float_leb_trans; [exact Hle|].
      apply tied_iff_least in Htie; [|apply Hmin; now apply in_map].
      now rewrite Ht in Htie. }
    specialize (Hmax (entry_struct (normalize e'), entry_date (normalize e'))).
    cbn [snd] in Hmax. rewrite Hd in Hmax.
    destruct (normalize_fields e') as [_ [_ <-]].
    apply Hmax. apply in_map_iff. now exists (normalize e').
Qed.

(** Two entries tie at the least deviation, one dated [None] and one dated:
    the sort by date raises. *)
Lemma recent_RT_entry_TypeError (sc : list Cmpd) (tc : list float)
  (dc : list (option string)) (e1 e2 : entry) :
  In e1 (zip3 sc tc dc) -> In e2 (zip3 sc tc dc) ->
  (forall e', In e' (zip3 sc tc dc) ->
              (deviation e1 <=? deviation e') = true) ->
  (deviation e2 =? deviation e1) = true ->
  entry_date e1 = None -> entry_date e2 <> None ->
  recent_RT_entry sc tc dc = Raise TypeError.
Proof.
  intros He1 He2 Hleast Htie Hd1 Hd2. rewrite recent_RT_entry_unfold.
  set (es := zip3 sc tc dc) in *.
  destruct (first_sort (map normalize es)) as [best [rest [Hsort [Hperm Hmin]]]].
  { destruct es; [contradiction | discriminate]. }
  { apply Forall_forall. intros ne Hin. apply in_map_iff in Hin.
    destruct Hin as [e [<- He]].
    destruct (normalize_fields e) as [_ [-> _]].
    now destruct (float_leb_not_nan _ _ (Hleast e He)). }
  rewrite Hsort. cbn [bind item_first].
  set (cands := filter (tied best) (best :: rest)).
  assert (Hbest_in : In best (map normalize es)).
  { apply Permutation_sym in Hperm. apply (Permutation_in _ Hperm). now left. }
  assert (Hbest : (deviation e1 <=? entry_temp best) = true).
  { apply in_map_iff in Hbest_in. destruct Hbest_in as [e [<- He]].
    destruct (normalize_fields e) as [_ [-> _]]. now apply Hleast. }
  assert (Hc1 : In (normalize e1) cands).
  { unfold cands. apply filter_In. split.
    - apply (Permutation_in _ Hperm). now apply in_map.
    - apply tied_iff_least; [apply Hmin; now apply in_map|].
      now destruct (normalize_fields e1) as [_ [-> _]]. }
  assert (Hc2 : In (normalize e2) cands).
  { unfold cands. apply filter_In. split.
    - apply (Permutation_in _ Hperm). now apply in_map.
    - apply tied_iff_least; [apply Hmin; now apply in_map|].
      destruct (normalize_fields e2) as [_ [-> _]].
      apply float_eqb_leb in Htie. destruct Htie as [Hle _].
      eapply float_leb_trans; eassumption. }
  rewrite sorted_date_None; [reflexivity| |].
  - rewrite length_map.
    apply (two_distinct_members (normalize e1) (normalize e2));
      try assumption.
    intros Heq. apply Hd2.
    destruct (normalize_fields e2) as [_ [_ <-]]. rewrite <- Heq.
    now destruct (normalize_fields e1) as [_ [_ ->]].
  - exists (entry_struct (normalize e1), entry_date (normalize e1)). split.
    + apply in_map_iff. now exists (normalize e1).
    + cbn [snd]. now destruct (normalize_fields e1) as [_ [_ ->]].
Qed.

(** One entry is strictly closer to 293.0 than all the others: it is
    returned, and its date is never compared. *)
Lemma recent_RT_entry_lone (sc : list Cmpd) (tc : list float)
  (dc : list (option string)) (pre post : list entry) (e : entry) :
  zip3 sc tc dc = pre ++ e :: post ->
  PrimFloat.is_nan (deviation e) = false ->
  (forall e', In e' (pre ++ post) -> (deviation e <? deviation e') = true) ->
  recent_RT_entry sc tc dc = Ok (entry_struct e).
Proof.
  intros Hes Hnum Hlone. rewrite recent_RT_entry_unfold, Hes.
  assert (Hothers : forall l, (forall e', In e' l ->
                                 (deviation e <? deviation e') = true) ->
                    filter (tied (normalize e)) (map normalize l) = []).
  { induction l as [|x l IH]; intros Hl; simpl; [reflexivity|].
    unfold tied at 1.
    destruct (normalize_fields x) as [_ [-> _]].
    destruct (normalize_fields e) as [_ [-> _]].
    assert (Hx : (deviation x =? deviation e) = false).
    { destruct (deviation x =? deviation e) eqn:Heq; [|reflexivity].
      apply float_eqb_leb in Heq. destruct Heq as [Hle _].
      rewrite (float_ltb_not_leb _ _ (Hl x (or_introl eq_refl))) in Hle.
      discriminate. }
    rewrite Hx. apply IH. intros e' He'. apply Hl. now right. }
  destruct (first_sort (map normalize (pre ++ e :: post)))
    as [best [rest [Hsort [Hperm Hmin]]]].
  { destruct pre; discriminate. }
  { apply Forall_forall. intros ne Hin. apply in_map_iff in Hin.
    destruct Hin as [x [<- Hx]].
    destruct (normalize_fields x) as [_ [-> _]].
    apply in_app_or in Hx. destruct Hx as [Hx | [<- | Hx]]; try assumption;
      (assert (Hlt : (deviation e <? deviation x) = true)
         by (apply Hlone, in_or_app; auto);
       apply float_ltb_leb, float_leb_not_nan in Hlt; tauto). }
  rewrite Hsort. cbn [bind item_first].
  assert (Hbest : best = normalize e).
  { assert (Hin : In best (map normalize (pre ++ e :: post))).
    { apply Permutation_sym in Hperm. apply (Permutation_in _ Hperm).
      now left. }
    apply in_map_iff in Hin. destruct Hin as [x [<- Hx]].
    apply in_app_or in Hx. destruct Hx as [Hx | [<- | Hx]];
      try reflexivity;
      (assert (Hlt : (deviation e <? deviation x) = true)
         by (apply Hlone, in_or_app; auto);
       assert (Hle : (entry_temp (normalize x)
                      <=? entry_temp (normalize e)) = true)
         by (apply Hmin, in_map, in_or_app; right; now left);
       destruct (normalize_fields x) as [_ [Hx' _]];
       destruct (normalize_fields e) as [_ [He' _]];
       rewrite Hx', He' in Hle;
       rewrite (float_ltb_not_leb _ _ Hlt) in Hle; discriminate). }
  subst best.
  assert (Hcands : filter (tied (normalize e)) (normalize e :: rest)
                   = [normalize e]).
  { apply Permutation_length_1_inv.
    eapply Permutation_trans;
      [|apply Permutation_filter_same; exact Hperm].
    rewrite map_app, filter_app. simpl.
    rewrite !Hothers.
    - rewrite tied_refl; [apply Permutation_refl|].
      now destruct (normalize_fields e) as [_ [-> _]].
    - intros e' He'. apply Hlone, in_or_app. now right.
    - intros e' He'. apply Hlone, in_or_app. now left. }
  rewrite Hcands. simpl.
  now destruct (normalize_fields e) as [-> _].
Qed.

(** An empty group: the first sort returns the empty list and indexing
    raises. *)
Lemma recent_RT_entry_empty (sc : list Cmpd) (tc : list float)
  (dc : list (option string)) :
  zip3 sc tc dc = [] -> recent_RT_entry sc tc dc = Raise IndexError.
Proof.
  intros Hes. rewrite recent_RT_entry_unfold, Hes. reflexivity.
Qed.

End SelectionOfOneGroup.

(** ** The groups as a list of triples *)

Section GroupsAsTriples.
Context `{Pymatgen}.

Lemma groups_zip (stoich_refs : list Structure) (temps : list float)
  (dates : list (option string)) (gs : list (list Structure))
  (gt : list (list float)) (gd : list (list (option string))) :
  get_unique_struct_info stoich_refs temps dates = (gs, gt, gd) ->
  zip3 gs gt gd
  = map (fun f => struct_class f stoich_refs temps dates)
        (unique_frameworks stoich_refs).
Proof.
  rewrite get_unique_struct_info_eq. cbv zeta. intros Heq.
  injection Heq as <- <- <-. apply zip3_unzip.
Qed.

Lemma struct_class_entries (framework : Structure)
  (stoich_refs : list Structure) (temps : list float)
  (dates : list (option string)) :
  entries_of (struct_class framework stoich_refs temps dates)
  = filter (fits_framework framework) (zip3 stoich_refs temps dates).
Proof.
  rewrite struct_class_eq. unfold entries_of. cbv zeta. cbn [fst snd].
  apply zip3_unzip.
Qed.

(** The [k]-th group is the class of the [k]-th framework. *)
Lemma group_of_framework (stoich_refs : list Structure) (temps : list float)
  (dates : list (option string)) (gs : list (list Structure))
  (gt : list (list float)) (gd : list (list (option string))) (k : nat)
  (g : list Structure * list float * list (option string)) :
  get_unique_struct_info stoich_refs temps dates = (gs, gt, gd) ->
  nth_error (zip3 gs gt gd) k = Some g <->
  exists framework,
    nth_error (unique_frameworks stoich_refs) k = Some framework
    /\ g = struct_class framework stoich_refs temps dates.
Proof.
  intros Hg. rewrite (groups_zip _ _ _ _ _ _ Hg). split.
  - intros Hk.
    destruct (nth_error (unique_frameworks stoich_refs) k) as [f|] eqn:Hf.
    + exists f. split; [reflexivity|].
      pose proof (map_nth_error
                    (fun f => struct_class f stoich_refs temps dates)
                    k _ Hf) as Hm.
      now injection (eq_trans (eq_sym Hk) Hm).
    + apply nth_error_None in Hf.
      assert (Hlt : k < length
                          (map (fun f => struct_class f stoich_refs temps dates)
                               (unique_frameworks stoich_refs))).
      { apply nth_error_Some. intros Hnone.
        discriminate (eq_trans (eq_sym Hk) Hnone). }
      rewrite length_map in Hlt. lia.
  - intros [f [Hf ->]].
    exact (map_nth_error (fun f => struct_class f stoich_refs temps dates)
                         k _ Hf).
Qed.

End GroupsAsTriples.

Lemma subseq_map {A B : Type} (f : A -> B) (l1 l2 : list A) :
  subseq l1 l2 -> subseq (map f l1) (map f l2).
Proof.
  induction 1; simpl;
    [apply subseq_nil | now apply subseq_skip | now apply subseq_keep].
Qed.

Lemma subseq_trans {A : Type} (l1 l2 l3 : list A) :
  subseq l1 l2 -> subseq l2 l3 -> subseq l1 l3.
Proof.
  intros H12 H23. revert l1 H12.
  induction H23 as [|x l2 l3 H23 IH|x l2 l3 H23 IH]; intros l1 H12.
  - exact H12.
  - constructor. now apply IH.
  - inversion H12 as [|x' l1' l2' H|x' l1' l2' H]; subst.
    + apply subseq_skip. now apply IH.
    + apply subseq_keep. now apply IH.
Qed.

Lemma subseq_nil_l {A : Type} (l : list A) : subseq [] l.
Proof. induction l; now constructor. Qed.

Lemma subseq_In {A : Type} (l1 l2 : list A) :
  subseq l1 l2 -> forall x, In x l1 -> In x l2.
Proof.
  induction 1 as [|y l1 l2 Hs IH|y l1 l2 Hs IH]; intros x Hx.
  - contradiction.
  - right. now apply IH.
  - destruct Hx as [<- | Hx]; [now left | right; now apply IH].
Qed.

Lemma zip3_columns {A B C : Type} (a : list A) (b : list B) (c : list C) :
  subseq (map (fun e => fst (fst e)) (zip3 a b c)) a
  /\ subseq (map (fun e => snd (fst e)) (zip3 a b c)) b
  /\ subseq (map snd (zip3 a b c)) c.
Proof.
  revert b c. induction a as [|x a IH]; intros b c.
  - simpl. repeat split; apply subseq_nil_l.
  - destruct b as [|y b]; [simpl; repeat split; apply subseq_nil_l|].
    destruct c as [|z c]; [simpl; repeat split; apply subseq_nil_l|].
    simpl. destruct (IH b c) as [Ha [Hb Hc]].
    repeat split; now apply subseq_keep.
Qed.

Lemma nth_error_zip3 {A B C : Type} (a : list A) (b : list B) (c : list C)
  (k : nat) (x : A) (y : B) (z : C) :
  nth_error a k = Some x -> nth_error b k = Some y ->
  nth_error c k = Some z -> nth_error (zip3 a b c) k = Some (x, y, z).
Proof.
  revert a b c. induction k as [|k IH]; intros [|x0 a] [|y0 b] [|z0 c];
    simpl; try discriminate.
  - intros Hx Hy Hz. injection Hx as <-. injection Hy as <-.
    injection Hz as <-. reflexivity.
  - apply IH.
Qed.

(** * The properties of the specification *)

(** ** Grouping *)

(** C3, as amended.  When the matcher's [fit] is symmetric and transitive,
    the groups returned by [get_unique_struct_info] are pairwise disjoint:
    no (structure, temperature, date) entry of one group is an entry of a
    group at another index.  (Without transitivity an entry that fits two
    frameworks is collected by both; see
    [entry_in_two_groups_when_fit_is_not_transitive].) *)
Theorem groups_disjoint_when_fit_is_an_equivalence `{Pymatgen}
  (stoich_refs : list Structure) (temps : list float)
  (dates : list (option string)) (gs : list (list Structure))
  (gt : list (list float)) (gd : list (list (option string))) :
  (forall a b, fit a b = true -> fit b a = true) ->
  (forall a b c, fit a b = true -> fit b c = true -> fit a c = true) ->
  get_unique_struct_info stoich_refs temps dates = (gs, gt, gd) ->
  forall i j gi gj,
    i <> j ->
    nth_error (zip3 gs gt gd) i = Some gi ->
    nth_error (zip3 gs gt gd) j = Some gj ->
    forall e, In e (entries_of gi) -> ~ In e (entries_of gj).
Proof.
  intros Hsym Htrans Hg i j gi gj Hij Hi Hj e Hei Hej.
  apply (group_of_framework _ _ _ _ _ _ _ _ Hg) in Hi, Hj.
  destruct Hi as [fi [Hfi ->]], Hj as [fj [Hfj ->]].
  rewrite struct_class_entries in Hei, Hej.
  apply filter_In in Hei, Hej.
  destruct Hei as [_ Hei], Hej as [_ Hej]. unfold fits_framework in Hei, Hej.
  destruct (unique_frameworks_spec stoich_refs) as [_ [Hfop _]].
  destruct (Nat.lt_total i j) as [Hlt | [Heq | Hgt]]; [|contradiction|].
  - pose proof (ForallOrdPairs_nth _ _ Hfop i j _ _ Hlt Hfi Hfj) as Hno.
    simpl in Hno. rewrite (Htrans fj (fst (fst e)) fi) in Hno;
      [discriminate | assumption | now apply Hsym].
  - pose proof (ForallOrdPairs_nth _ _ Hfop j i _ _ Hgt Hfj Hfi) as Hno.
    simpl in Hno. rewrite (Htrans fi (fst (fst e)) fj) in Hno;
      [discriminate | assumption | now apply Hsym].
Qed.

(** C4.  When [fit] is reflexive and symmetric on the input structures,
    every entry of the input (a structure with its temperature and date) is
    an entry of at least one group: the group of a framework that is the
    structure itself or that the structure fits.  When the three input
    lists are parallel every structure of [stoich_refs] has such an entry,
    so every structure is in the structure list of at least one group. *)
Theorem every_structure_is_grouped `{Pymatgen}
  (stoich_refs : list Structure) (temps : list float)
  (dates : list (option string)) (gs : list (list Structure))
  (gt : list (list float)) (gd : list (list (option string))) :
  (forall a, In a stoich_refs -> fit a a = true) ->
  (forall a b, In a stoich_refs -> In b stoich_refs ->
               fit a b = true -> fit b a = true) ->
  get_unique_struct_info stoich_refs temps dates = (gs, gt, gd) ->
  (forall struct t d,
      In (struct, t, d) (zip3 stoich_refs temps dates) ->
      exists k framework g,
        nth_error (unique_frameworks stoich_refs) k = Some framework
        /\ (framework = struct \/ fit struct framework = true)
        /\ nth_error (zip3 gs gt gd) k = Some g
        /\ In (struct, t, d) (entries_of g))
  /\ (length temps = length stoich_refs ->
      length dates = length stoich_refs ->
      forall struct, In struct stoich_refs ->
        exists k framework sc,
          nth_error (unique_frameworks stoich_refs) k = Some framework
          /\ (framework = struct \/ fit struct framework = true)
          /\ nth_error gs k = Some sc /\ In struct sc).
Proof.
  intros Hrefl Hsym Hg.
  destruct (unique_frameworks_spec stoich_refs) as [Hincl [_ Hcov]].
  assert (Hfw : forall struct, In struct stoich_refs ->
             exists k framework,
               nth_error (unique_frameworks stoich_refs) k = Some framework
               /\ (framework = struct \/ fit struct framework = true)
               /\ fit framework struct = true).
  { intros struct Hin.
    destruct (Hcov struct Hin) as [Hown | [f [Hf Hfit]]].
    - apply In_nth_error in Hown. destruct Hown as [k Hk].
      exists k, struct. repeat split;
        [assumption | now left | now apply Hrefl].
    - pose proof Hf as Hf'. apply In_nth_error in Hf'.
      destruct Hf' as [k Hk].
      exists k, f. repeat split; [assumption | now right|].
      apply Hsym; [assumption | now apply Hincl | assumption]. }
  split.
  - intros struct t d He.
    assert (Hin : In struct stoich_refs).
    { destruct (zip3_columns stoich_refs temps dates) as [Hcs _].
      apply (subseq_In _ _ Hcs).
      apply in_map_iff. now exists (struct, t, d). }
    destruct (Hfw struct Hin) as [k [framework [Hk [Hwhy Hfit]]]].
    exists k, framework,
      (struct_class framework stoich_refs temps dates).
    repeat split; try assumption.
    + apply (group_of_framework _ _ _ _ _ _ _ _ Hg). now exists framework.
    + rewrite struct_class_entries. apply filter_In. split; assumption.
  - intros Hlt Hld struct Hin.
    destruct (Hfw struct Hin) as [k [framework [Hk [Hwhy Hfit]]]].
    destruct (zip3_In_fst stoich_refs temps dates Hlt Hld struct Hin)
      as [t [d Htd]].
    pose proof (group_nth stoich_refs temps dates k) as Hnth.
    rewrite Hg in Hnth. destruct (Hnth framework Hk) as [Hsc _].
    exists k, framework. eexists. repeat split; try eassumption.
    apply in_map_iff. exists (struct, t, d). split; [reflexivity|].
    apply filter_In. split; assumption.
Qed.

Lemma near_refl (a : nat) : near a a = true.
Proof. unfold near. now rewrite Nat.sub_diag. Qed.

Lemma near_sym (a b : nat) : near a b = true -> near b a = true.
Proof. unfold near. now rewrite andb_comm. Qed.

Lemma same_tens_sym (a b : nat) : same_tens a b = true -> same_tens b a = true.
Proof. unfold same_tens. now rewrite Nat.eqb_sym. Qed.

Lemma same_tens_trans (a b c : nat) :
  same_tens a b = true -> same_tens b c = true -> same_tens a c = true.
Proof. unfold same_tens. rewrite !Nat.eqb_eq. congruence. Qed.

(** C3 as stated fails: with a matcher that is not transitive, structure 1
    fits both frameworks 0 and 2 and its entry is collected twice. *)
Lemma entry_in_two_groups_when_fit_is_not_transitive :
  @get_unique_struct_info near_matcher
    [0; 2; 1] [150%float; 320%float; 293%float]
    [Some "2019-01-01"; Some "2020-01-01"; Some "2021-06-15"]%string
  = ([[0; 1]; [2; 1]],
     [[150%float; 293%float]; [320%float; 293%float]],
     [[Some "2019-01-01"; Some "2021-06-15"];
      [Some "2020-01-01"; Some "2021-06-15"]]%string)
  /\ In (1, 293%float, Some "2021-06-15"%string)
        (entries_of ([0; 1], [150%float; 293%float],
                     [Some "2019-01-01"; Some "2021-06-15"]%string))
  /\ In (1, 293%float, Some "2021-06-15"%string)
        (entries_of ([2; 1], [320%float; 293%float],
                     [Some "2020-01-01"; Some "2021-06-15"]%string)).
Proof.
  split; [vm_compute; reflexivity|].
  split; simpl; auto.
Qed.

Lemma groups_disjoint_witness :
  (forall a b, same_tens a b = true -> same_tens b a = true)
  /\ (forall a b c, same_tens a b = true -> same_tens b c = true ->
                    same_tens a c = true)
  /\ ~ In (11, 150%float, @None string)
          (entries_of ([25; 27], [320%float; 300%float],
                       [@None string; None])).
Proof.
  split; [exact same_tens_sym|]. split; [exact same_tens_trans|].
  apply (@groups_disjoint_when_fit_is_an_equivalence tens_matcher
           [11; 25; 12; 27]
           [150%float; 320%float; 293%float; 300%float]
           [None; None; None; None]
           [[11; 12]; [25; 27]]
           [[150%float; 293%float]; [320%float; 300%float]]
           [[None; None]; [None; None]]
           same_tens_sym same_tens_trans eq_refl 0 1
           ([11; 12], [150%float; 293%float], [None; None])
           ([25; 27], [320%float; 300%float], [None; None])).
  - discriminate.
  - reflexivity.
  - reflexivity.
  - simpl. auto.
Defined.

Lemma every_structure_is_grouped_witness :
  (forall a, In a [0; 2; 1] -> near a a = true)
  /\ (forall a b, In a [0; 2; 1] -> In b [0; 2; 1] ->
                  near a b = true -> near b a = true)
  /\ exists k framework sc,
       nth_error (@unique_frameworks near_matcher [0; 2; 1]) k
       = Some framework
       /\ (framework = 1 \/ near 1 framework = true)
       /\ nth_error [[0; 1]; [2; 1]] k = Some sc /\ In 1 sc.
Proof.
  assert (Hrefl : forall a, In a [0; 2; 1] -> near a a = true)
    by (intros a _; apply near_refl).
  assert (Hsym : forall a b, In a [0; 2; 1] -> In b [0; 2; 1] ->
                             near a b = true -> near b a = true)
    by (intros a b _ _; apply near_sym).
  split; [exact Hrefl|]. split; [exact Hsym|].
  apply (proj2 (@every_structure_is_grouped near_matcher
                  [0; 2; 1] [150%float; 320%float; 293%float]
                  [None; None; None]
                  [[0; 1]; [2; 1]]
                  [[150%float; 293%float]; [320%float; 293%float]]
                  [[None; None]; [None; None]]
                  Hrefl Hsym eq_refl) eq_refl eq_refl 1).
  simpl. auto.
Defined.

(** ** Ingestion *)

Lemma zip3_columns_eq {A B C : Type} (a : list A) (b : list B) (c : list C) :
  length b = length a -> length c = length a ->
  map (fun e => fst (fst e)) (zip3 a b c) = a
  /\ map (fun e => snd (fst e)) (zip3 a b c) = b
  /\ map snd (zip3 a b c) = c.
Proof.
  revert b c. induction a as [|x a IH]; intros [|y b] [|z c]; simpl;
    intros Hb Hc; try discriminate; [repeat split|].
  destruct (IH b c) as [Ha [Hb' Hc']]; try lia.
  now rewrite Ha, Hb', Hc'.
Qed.

Lemma Forall2_member_l {A B : Type} (R : A -> B -> Prop) (l : list A)
  (l' : list B) :
  Forall2 R l l' -> forall x, In x l -> exists y, In y l' /\ R x y.
Proof.
  induction 1 as [|x0 y0 l l' Hxy Hrest IH]; intros x Hin.
  - contradiction.
  - destruct Hin as [<- | Hin].
    + exists y0. split; [now left | assumption].
    + destruct (IH x Hin) as [y [Hy Hr]]. exists y. split; [now right|].
      assumption.
Qed.

Lemma Forall2_member_r {A B : Type} (R : A -> B -> Prop) (l : list A)
  (l' : list B) :
  Forall2 R l l' -> forall y, In y l' -> exists x, In x l /\ R x y.
Proof.
  induction 1 as [|x0 y0 l l' Hxy Hrest IH]; intros y Hin.
  - contradiction.
  - destruct Hin as [<- | Hin].
    + exists x0. split; [now left | assumption].
    + destruct (IH y Hin) as [x [Hx Hr]]. exists x. split; [now right|].
      assumption.
Qed.

(** What [get_stoichiometric_info] returns, row by row. *)
Lemma get_stoichiometric_info_rows `{Pymatgen} `{PyFloat}
  (dir : cif_directory) (ss : list Structure) (ts : list float)
  (ds : list (option string)) :
  get_stoichiometric_info dir = Ok (ss, ts, ds) <->
  Forall (fun f => exists struct, from_file f = Ok struct) dir
  /\ length ts = length ss /\ length ds = length ss
  /\ Forall2 row_of (filter file_is_ordered dir) (zip3 ss ts ds).
Proof.
  unfold get_stoichiometric_info. rewrite tabulate_loop. simpl. split.
  - intros [rows [Hall [Hrows [-> [-> ->]]]]].
    rewrite !length_map, zip3_unzip. auto.
  - intros [Hall [Hlt [Hld Hrows]]]. exists (zip3 ss ts ds).
    destruct (zip3_columns_eq ss ts ds Hlt Hld) as [-> [-> ->]].
    auto.
Qed.

(** C5.  [get_stoichiometric_info] returns exactly when every file parses
    and the conditions of every ordered file parse; its three lists are
    then parallel and hold, in directory order, one row for each file whose
    structure is ordered and none for the others: the file's structure, its
    temperature and its date.  So the structure of a file is among the
    returned structures if and only if it is ordered, wherever the file
    stands in the listing. *)
Theorem get_stoichiometric_info_keeps_exactly_the_ordered `{Pymatgen}
  `{PyFloat} (dir : cif_directory) (ss : list Structure) (ts : list float)
  (ds : list (option string)) :
  (get_stoichiometric_info dir = Ok (ss, ts, ds) <->
   Forall (fun f => exists struct, from_file f = Ok struct) dir
   /\ length ts = length ss /\ length ds = length ss
   /\ Forall2 row_of (filter file_is_ordered dir) (zip3 ss ts ds))
  /\ (get_stoichiometric_info dir = Ok (ss, ts, ds) ->
      forall f struct, In f dir -> from_file f = Ok struct ->
                       (In struct ss <-> is_ordered struct = true)).
Proof.
  split; [apply get_stoichiometric_info_rows|].
  intros Hget f struct Hf Hparse.
  apply get_stoichiometric_info_rows in Hget.
  destruct Hget as [_ [Hlt [Hld Hrows]]].
  destruct (zip3_columns_eq ss ts ds Hlt Hld) as [Hss _]. split.
  - intros Hin. rewrite <- Hss in Hin. apply in_map_iff in Hin.
    destruct Hin as [row [Hrow Hin]].
    destruct (Forall2_member_r _ _ _ Hrows row Hin) as [f' [Hf' [Hs' _]]].
    apply filter_In in Hf'. destruct Hf' as [_ Hord].
    unfold file_is_ordered in Hord. rewrite Hs', Hrow in Hord. exact Hord.
  - intros Hord.
    assert (Hkept : In f (filter file_is_ordered dir)).
    { apply filter_In. split; [assumption|].
      unfold file_is_ordered. now rewrite Hparse. }
    destruct (Forall2_member_l _ _ _ Hrows f Hkept) as [row [Hin [Hs' _]]].
    rewrite Hparse in Hs'. injection Hs' as ->.
    rewrite <- Hss. apply in_map_iff. now exists row.
Qed.

(** C7.  A file none of whose lines holds either marker yields the
    defaults: temperature 0.0 and no date. *)
Theorem parse_measurement_conditions_defaults `{PyFloat} (f : cif_file) :
  (forall l, In l (readlines (text f)) ->
             contains date_marker l = false
             /\ contains temp_marker l = false) ->
  parse_measurement_conditions f = Ok (0%float, None).
Proof.
  unfold parse_measurement_conditions.
  generalize (0%float, @None string) as st.
  induction (readlines (text f)) as [|l0 rest IH]; intros st Hno; simpl.
  - reflexivity.
  - destruct (Hno l0 (or_introl eq_refl)) as [Hd Ht].
    rewrite (scan_line_no_marker st l0 Hd Ht). simpl.
    apply IH. intros l Hl. apply Hno. now right.
Qed.

(** C10.  A file with a temperature line whose last token [float] rejects
    makes [parse_measurement_conditions] raise [ValueError]; the defaults
    do not apply.  Nothing catches it: [get_stoichiometric_info] raises on
    every directory that lists such a file with an ordered structure. *)
Theorem parse_measurement_conditions_malformed_temperature `{Pymatgen}
  `{PyFloat} (f : cif_file) (l tok : string) :
  In l (readlines (text f)) ->
  contains temp_marker l = true ->
  item_last (split l) = Ok tok ->
  parse_float tok = None ->
  parse_measurement_conditions f = Raise ValueError
  /\ forall dir struct,
       In f dir -> from_file f = Ok struct -> is_ordered struct = true ->
       exists e, get_stoichiometric_info dir = Raise e.
Proof.
  intros Hl Ht Htok Hbad.
  assert (Hraise : parse_measurement_conditions f = Raise ValueError)
    by (eapply scan_lines_malformed; eassumption).
  split; [exact Hraise|].
  intros dir struct Hf Hparse Hord.
  apply (for_loop_raises tabulate dir f Hf).
  intros [[ss ts] ds]. exists ValueError. unfold tabulate.
  rewrite Hparse. simpl. rewrite Hord, Hraise. reflexivity.
Qed.

(** C6.  The three lists returned by [get_stoichiometric_info] have the
    same length.  The three lists returned by [get_unique_struct_info] have
    the same length, the number of frameworks discovered, and at every
    index the three inner lists have the same length and are the input with
    some positions left out, the same positions in all three, in the
    original order. *)
Theorem outputs_are_parallel `{Pymatgen} `{PyFloat} :
  (forall dir ss ts ds,
      get_stoichiometric_info dir = Ok (ss, ts, ds) ->
      length ss = length ts /\ length ts = length ds)
  /\ (forall stoich_refs temps dates gs gt gd,
         get_unique_struct_info stoich_refs temps dates = (gs, gt, gd) ->
         length gs = length (unique_frameworks stoich_refs)
         /\ length gt = length gs /\ length gd = length gs
         /\ forall k sc tc dc,
              nth_error gs k = Some sc -> nth_error gt k = Some tc ->
              nth_error gd k = Some dc ->
              length sc = length tc /\ length tc = length dc
              /\ subseq (zip3 sc tc dc) (zip3 stoich_refs temps dates)
              /\ subseq sc stoich_refs /\ subseq tc temps
              /\ subseq dc dates).
Proof.
  split.
  - intros dir ss ts ds Hget. apply get_stoichiometric_info_rows in Hget.
    destruct Hget as [_ [Hlt [Hld _]]]. lia.
  - intros stoich_refs temps dates gs gt gd Hg.
    pose proof (groups_length stoich_refs temps dates) as Hlen.
    rewrite Hg in Hlen. destruct Hlen as [Hs [Ht Hd]].
    split; [congruence|]. split; [congruence|]. split; [congruence|].
    intros k sc tc dc Hk1 Hk2 Hk3.
    pose proof (nth_error_zip3 _ _ _ _ _ _ _ Hk1 Hk2 Hk3) as Hk.
    apply (group_of_framework _ _ _ _ _ _ _ _ Hg) in Hk.
    destruct Hk as [framework [_ Hcls]].
    rewrite struct_class_eq in Hcls. cbv zeta in Hcls.
    injection Hcls as -> -> ->.
    destruct (zip3_columns stoich_refs temps dates) as [Hcs [Hct Hcd]].
    repeat split.
    + now rewrite !length_map.
    + now rewrite !length_map.
    + rewrite zip3_unzip. apply subseq_filter.
    + eapply subseq_trans; [|exact Hcs]. apply subseq_map, subseq_filter.
    + eapply subseq_trans; [|exact Hct]. apply subseq_map, subseq_filter.
    + eapply subseq_trans; [|exact Hcd]. apply subseq_map, subseq_filter.
Qed.

(** ** Selection *)

Section SelectionClaims.
Context {Cmpd : Type}.
Local Open Scope float_scope.

Lemma select_spec (g : list Cmpd * list float * list (option string)) :
  selectable g ->
  exists final, select g = Ok final /\ closest_then_latest g final.
Proof.
  destruct g as [[sc tc] dc]. intros [Hne Hwf].
  destruct (recent_RT_entry_spec sc tc dc Hne Hwf)
    as [e [He [Hsel [Hmin Hlate]]]].
  exists (entry_struct e). split; [exact Hsel|].
  exists e. repeat split; assumption.
Qed.

Lemma Forall_choose {A B : Type} (P Q : A -> B -> Prop) (l : list A) :
  Forall (fun x => exists y, P x y /\ Q x y) l ->
  exists l', Forall2 P l l' /\ Forall2 Q l l'.
Proof.
  induction 1 as [|x l [y [Hp Hq]] _ [l' [HP HQ]]].
  - exists []. split; constructor.
  - exists (y :: l'). split; constructor; assumption.
Qed.

End SelectionClaims.

(** C1, as amended.  For groups that are non-empty, whose dates are all
    strings and none of whose deviations |temperature - 293.0| is NaN,
    [get_recent_RT_entry] returns, for every group, the structure of an
    entry whose deviation is least over the group and whose date string is
    greatest, in the order of strings, among the entries of that least
    deviation.  In particular two entries of equal deviation dated
    "2020-01-01" and "2021-06-15" yield the one dated "2021-06-15", in
    either order. *)
Theorem get_recent_RT_entry_closest_then_latest {Cmpd : Type} :
  (forall (gs : list (list Cmpd)) gt gd,
      Forall selectable (zip3 gs gt gd) ->
      exists out,
        get_recent_RT_entry gs gt gd = Ok out
        /\ Forall2 closest_then_latest (zip3 gs gt gd) out)
  /\ (forall (s1 s2 : Cmpd) (t1 t2 : float),
         PrimFloat.eqb (normalized_temp t1) (normalized_temp t2) = true ->
         get_recent_RT_entry [[s1; s2]] [[t1; t2]]
           [[Some "2020-01-01"; Some "2021-06-15"]]%string = Ok [s2]
         /\ get_recent_RT_entry [[s2; s1]] [[t2; t1]]
              [[Some "2021-06-15"; Some "2020-01-01"]]%string = Ok [s2]).
Proof.
  split.
  - intros gs gt gd Hall.
    destruct (Forall_choose (fun g final => select g = Ok final)
                            closest_then_latest (zip3 gs gt gd))
      as [out [Hsel Hspec]].
    { eapply Forall_impl; [|exact Hall]. intros g. apply select_spec. }
    exists out. split; [|exact Hspec].
    now apply get_recent_RT_entry_groups.
  - intros s1 s2 t1 t2 Htie.
    assert (Hnum : PrimFloat.is_nan (normalized_temp t1) = false
                   /\ PrimFloat.is_nan (normalized_temp t2) = false).
    { apply float_eqb_leb in Htie. destruct Htie as [Hle _].
      now apply float_leb_not_nan. }
    assert (Htie' : PrimFloat.eqb (normalized_temp t2) (normalized_temp t1)
                    = true).
    { apply float_eqb_leb. apply float_eqb_leb in Htie. tauto. }
    destruct Hnum as [Hn1 Hn2].
    split; apply get_recent_RT_entry_groups; constructor; try constructor;
      unfold select; cbn [fst snd].
    + destruct (recent_RT_entry_spec [s1; s2] [t1; t2]
                  [Some "2020-01-01"; Some "2021-06-15"]%string)
        as [e [He [Hsel [_ Hlate]]]].
      * discriminate.
      * intros e [<- | [<- | []]]; split; try assumption; discriminate.
      * destruct He as [<- | [<- | []]]; [|exact Hsel].
        specialize (Hlate (s2, t2, Some "2021-06-15"%string)
                          (or_intror (or_introl eq_refl)) Htie').
        discriminate Hlate.
    + destruct (recent_RT_entry_spec [s2; s1] [t2; t1]
                  [Some "2021-06-15"; Some "2020-01-01"]%string)
        as [e [He [Hsel [_ Hlate]]]].
      * discriminate.
      * intros e [<- | [<- | []]]; split; try assumption; discriminate.
      * destruct He as [<- | [<- | []]]; [exact Hsel|].
        specialize (Hlate (s2, t2, Some "2021-06-15"%string)
                          (or_introl eq_refl) Htie').
        discriminate Hlate.
Qed.

(** C1 as stated fails: a group of one entry whose temperature is NaN is
    non-empty and its date is a string, but the deviation NaN is not equal
    to itself, no candidate is collected and indexing the empty list
    raises. *)
Lemma group_with_nan_temperature_raises :
  entries_of ([1], [PrimFloat.nan], [Some "2020-01-01"%string]) <> []
  /\ is_string (Some "2020-01-01"%string)
  /\ get_recent_RT_entry [[1]] [[PrimFloat.nan]] [[Some "2020-01-01"%string]]
     = Raise IndexError.
Proof.
  split; [discriminate|]. split; [discriminate|].
  vm_compute. reflexivity.
Qed.

Lemma closest_then_latest_witness :
  (PrimFloat.eqb (normalized_temp 292%float) (normalized_temp 294%float)
   = true
   /\ get_recent_RT_entry [[1; 2]] [[292%float; 294%float]]
        [[Some "2020-01-01"; Some "2021-06-15"]]%string = Ok [2]
   /\ get_recent_RT_entry [[2; 1]] [[294%float; 292%float]]
        [[Some "2021-06-15"; Some "2020-01-01"]]%string = Ok [2])
  /\ (Forall selectable
        (zip3 [[1; 2]; [3]] [[150%float; 300%float]; [293%float]]
              [[Some "2019-01-01"; Some "2022-03-03"];
               [Some "2020-01-01"]]%string)
      /\ exists out,
           get_recent_RT_entry [[1; 2]; [3]]
             [[150%float; 300%float]; [293%float]]
             [[Some "2019-01-01"; Some "2022-03-03"];
              [Some "2020-01-01"]]%string = Ok out
           /\ Forall2 closest_then_latest
                (zip3 [[1; 2]; [3]] [[150%float; 300%float]; [293%float]]
                      [[Some "2019-01-01"; Some "2022-03-03"];
                       [Some "2020-01-01"]]%string) out).
Proof.
  assert (Htie : PrimFloat.eqb (normalized_temp 292%float)
                               (normalized_temp 294%float) = true)
    by reflexivity.
  assert (Hall : Forall selectable
                   (zip3 [[1; 2]; [3]] [[150%float; 300%float]; [293%float]]
                         [[Some "2019-01-01"; Some "2022-03-03"];
                          [Some "2020-01-01"]]%string)).
  { apply Forall_cons; [|apply Forall_cons; [|apply Forall_nil]];
      (split; [discriminate|]); intros e Hin; simpl in Hin;
      repeat (destruct Hin as [<- | Hin];
              [split; [reflexivity | discriminate]|]);
      contradiction. }
  split.
  - split; [exact Htie|].
    exact (proj2 (@get_recent_RT_entry_closest_then_latest nat)
                 1 2 292%float 294%float Htie).
  - split; [exact Hall|].
    exact (proj1 (@get_recent_RT_entry_closest_then_latest nat) _ _ _ Hall).
Defined.

(** C2, as amended.  Two entries have exactly equal deviations if and only
    if their differences from 293.0, as the subtraction rounds them, are
    equal or opposite.  Identical temperatures are one case; temperatures on
    either side of 293.0, such as 292.0 and 294.0, are another. *)
Theorem deviations_tie_iff_offsets_equal_or_opposite (t1 t2 : float) :
  PrimFloat.eqb (normalized_temp t1) (normalized_temp t2)
  = PrimFloat.eqb (PrimFloat.sub t1 RT) (PrimFloat.sub t2 RT)
    || PrimFloat.eqb (PrimFloat.sub t1 RT)
                     (PrimFloat.opp (PrimFloat.sub t2 RT)).
Proof. unfold normalized_temp. apply float_abs_eqb. Qed.

(** C2 as stated fails: 292.0 and 294.0 are different temperatures with the
    same deviation 1.0, and both entries are collected as candidates. *)
Lemma equal_deviation_for_different_temperatures :
  PrimFloat.eqb (normalized_temp 292%float) (normalized_temp 294%float)
  = true
  /\ PrimFloat.eqb 292%float 294%float = false
  /\ candidates (1, normalized_temp 292%float, @None string)
       [(1, normalized_temp 292%float, None);
        (2, normalized_temp 294%float, None)]
     = ([1; 2], [None; None]).
Proof. repeat split; vm_compute; reflexivity. Qed.

(** C8.  A group whose three lists are empty makes [get_recent_RT_entry]
    raise [IndexError]: the sorted list is empty and has no first item.  No
    list of groups that holds such a group yields a result. *)
Theorem get_recent_RT_entry_empty_group {Cmpd : Type} :
  @get_recent_RT_entry Cmpd [[]] [[]] [[]] = Raise IndexError
  /\ forall (gs : list (list Cmpd)) gt gd,
       In ([], [], []) (zip3 gs gt gd) ->
       exists e, get_recent_RT_entry gs gt gd = Raise e.
Proof.
  split; [reflexivity|].
  intros gs gt gd Hin.
  apply (get_recent_RT_entry_raises gs gt gd ([], [], []) IndexError Hin).
  reflexivity.
Qed.

Lemma empty_group_witness :
  In ([], [], []) (zip3 [[1]; []] [[293%float]; []] [[@None string]; []])
  /\ exists e,
       get_recent_RT_entry [[1]; []] [[293%float]; []] [[@None string]; []]
       = Raise e.
Proof.
  assert (Hin : In ([], [], [])
                   (zip3 [[1]; []] [[293%float]; []] [[@None string]; []]))
    by (simpl; auto).
  split; [exact Hin|].
  exact (proj2 (@get_recent_RT_entry_empty_group nat) _ _ _ Hin).
Defined.

(** C9, as amended.  In a group none of whose deviations
    |temperature - 293.0| is NaN: when two entries tie at the least
    deviation of the group, one dated [None] and the other dated by a
    string, [get_recent_RT_entry] raises [TypeError], the sort by date
    comparing [None] with a string; and an entry dated [None] that is
    strictly closer to 293.0 than every other entry of the group is returned
    without error. *)
Theorem get_recent_RT_entry_absent_date {Cmpd : Type} (sc : list Cmpd)
  (tc : list float) (dc : list (option string)) :
  (forall e, In e (zip3 sc tc dc) ->
             PrimFloat.is_nan (deviation e) = false) ->
  (forall e1 e2,
      In e1 (zip3 sc tc dc) -> In e2 (zip3 sc tc dc) ->
      (forall e', In e' (zip3 sc tc dc) ->
                  PrimFloat.leb (deviation e1) (deviation e') = true) ->
      PrimFloat.eqb (deviation e2) (deviation e1) = true ->
      entry_date e1 = None -> entry_date e2 <> None ->
      get_recent_RT_entry [sc] [tc] [dc] = Raise TypeError)
  /\ (forall pre e post,
         zip3 sc tc dc = pre ++ e :: post ->
         (forall e', In e' (pre ++ post) ->
                     PrimFloat.ltb (deviation e) (deviation e') = true) ->
         entry_date e = None ->
         get_recent_RT_entry [sc] [tc] [dc] = Ok [entry_struct e]).
Proof.
  intros Hnum. split.
  - intros e1 e2 He1 He2 Hleast Htie Hd1 Hd2.
    unfold get_recent_RT_entry. simpl.
    now rewrite (recent_RT_entry_TypeError sc tc dc e1 e2).
  - intros pre e post Hes Hlone _.
    assert (He : PrimFloat.is_nan (deviation e) = false).
    { apply Hnum. rewrite Hes. apply in_or_app. right. now left. }
    unfold get_recent_RT_entry. simpl.
    now rewrite (recent_RT_entry_lone sc tc dc pre post e).
Qed.

(** C9 as stated fails: in a group of one entry whose temperature is NaN and
    whose date is [None], that entry is the only one, so no entry is closer
    than it, yet it is not returned: the deviation NaN is not equal to
    itself, no candidate is collected and indexing the empty list raises. *)
Lemma lone_entry_with_nan_temperature_and_absent_date_raises :
  entries_of ([1], [PrimFloat.nan], [@None string])
  = [(1, PrimFloat.nan, None)]
  /\ entry_date (1, PrimFloat.nan, @None string) = None
  /\ get_recent_RT_entry [[1]] [[PrimFloat.nan]] [[@None string]]
     = Raise IndexError.
Proof.
  split; [reflexivity|]. split; [reflexivity|].
  vm_compute. reflexivity.
Qed.

Lemma absent_date_witness :
  get_recent_RT_entry [[1; 2]] [[292%float; 294%float]]
    [[None; Some "2021-06-15"%string]] = Raise TypeError
  /\ get_recent_RT_entry [[1; 2]] [[150%float; 300%float]]
       [[Some "2021-06-15"%string; None]] = Ok [2].
Proof.
  split.
  - assert (Hnum : forall e,
               In e (zip3 [1; 2] [292%float; 294%float]
                          [None; Some "2021-06-15"%string]) ->
               PrimFloat.is_nan (deviation e) = false)
      by (intros e [<- | [<- | []]]; reflexivity).
    apply (proj1 (@get_recent_RT_entry_absent_date nat
                    [1; 2] [292%float; 294%float]
                    [None; Some "2021-06-15"%string] Hnum)
                 (1, 292%float, None)
                 (2, 294%float, Some "2021-06-15"%string)).
    + simpl; auto.
    + simpl; auto.
    + intros e' [<- | [<- | []]]; reflexivity.
    + reflexivity.
    + reflexivity.
    + discriminate.
  - assert (Hnum : forall e,
               In e (zip3 [1; 2] [150%float; 300%float]
                          [Some "2021-06-15"%string; None]) ->
               PrimFloat.is_nan (deviation e) = false)
      by (intros e [<- | [<- | []]]; reflexivity).
    apply (proj2 (@get_recent_RT_entry_absent_date nat
                    [1; 2] [150%float; 300%float]
                    [Some "2021-06-15"%string; None] Hnum)
                 [(1, 150%float, Some "2021-06-15"%string)]
                 (2, 300%float, None) []).
    + reflexivity.
    + intros e' [<- | []]. reflexivity.
    + reflexivity.
Defined.

(** ** The examples of ingestion *)

Lemma example_directory_info :
  @get_stoichiometric_info near_matcher decimal_float example_directory
  = Ok ([2; 4], [300%float; 0%float], [Some "2021-06-15"%string; None]).
Proof. vm_compute. reflexivity. Qed.

Lemma keeps_exactly_the_ordered_witness :
  @get_stoichiometric_info near_matcher decimal_float example_directory
  = Ok ([2; 4], [300%float; 0%float], [Some "2021-06-15"%string; None])
  /\ (In 3 [2; 4] <-> Nat.even 3 = true)
  /\ (In 4 [2; 4] <-> Nat.even 4 = true).
Proof.
  split; [exact example_directory_info|]. split.
  - apply (proj2 (@get_stoichiometric_info_keeps_exactly_the_ordered
                    near_matcher decimal_float example_directory
                    [2; 4] [300%float; 0%float]
                    [Some "2021-06-15"%string; None])
                 example_directory_info
                 {| name := "abc";
                    text := line "_cell_measurement_temperature 293(2)" |}
                 3).
    + simpl. auto.
    + reflexivity.
  - apply (proj2 (@get_stoichiometric_info_keeps_exactly_the_ordered
                    near_matcher decimal_float example_directory
                    [2; 4] [300%float; 0%float]
                    [Some "2021-06-15"%string; None])
                 example_directory_info
                 {| name := "abcd"; text := line "data_abcd" |} 4).
    + simpl. auto.
    + reflexivity.
Defined.

Lemma outputs_are_parallel_witness :
  (length [2; 4] = length [300%float; 0%float]
   /\ length [300%float; 0%float]
      = length [Some "2021-06-15"%string; None])
  /\ length [[0; 1]; [2; 1]] = length (@unique_frameworks near_matcher [0; 2; 1]).
Proof.
  split.
  - exact (proj1 (@outputs_are_parallel near_matcher decimal_float)
                 example_directory _ _ _ example_directory_info).
  - exact (proj1 (proj2 (@outputs_are_parallel near_matcher decimal_float)
                        [0; 2; 1] [150%float; 320%float; 293%float]
                        [None; None; None]
                        [[0; 1]; [2; 1]]
                        [[150%float; 293%float]; [320%float; 293%float]]
                        [[None; None]; [None; None]] eq_refl)).
Defined.

Lemma defaults_witness :
  (forall l, In l (readlines (line "data_abcd")) ->
             contains date_marker l = false
             /\ contains temp_marker l = false)
  /\ @parse_measurement_conditions decimal_float
       {| name := "abcd"; text := line "data_abcd" |}
     = Ok (0%float, None).
Proof.
  assert (Hno : forall l, In l (readlines (line "data_abcd")) ->
                          contains date_marker l = false
                          /\ contains temp_marker l = false).
  { intros l [<- | []]. split; reflexivity. }
  split; [exact Hno|].
  exact (@parse_measurement_conditions_defaults decimal_float
           {| name := "abcd"; text := line "data_abcd" |} Hno).
Defined.

Lemma malformed_temperature_witness :
  @parse_measurement_conditions decimal_float malformed_file
  = Raise ValueError
  /\ exists e,
       @get_stoichiometric_info near_matcher decimal_float
         (example_directory ++ [malformed_file]) = Raise e.
Proof.
  destruct (@parse_measurement_conditions_malformed_temperature
              near_matcher decimal_float malformed_file
              (line "_cell_measurement_temperature 293(2)") "293(2)"%string)
    as [Hraise Hfatal].
  - simpl. auto.
  - reflexivity.
  - reflexivity.
  - reflexivity.
  - split; [exact Hraise|].
    apply (Hfatal (example_directory ++ [malformed_file]) 2).
    + apply in_or_app. right. simpl. auto.
    + reflexivity.
    + reflexivity.
Defined.

(** * Further properties of the code *)

(** ** parse_measurement_conditions, line by line *)

Section ScanFacts.
Context `{PyFloat}.

(** What one line does to the pair, case by case. *)
Lemma scan_line_Ok (temp : float) (date : option string) (l : string)
  (temp' : float) (date' : option string) :
  scan_line (temp, date) l = Ok (temp', date') <->
  (if contains date_marker l
   then exists tok, item_last (split l) = Ok tok /\ date' = Some tok
   else date' = date)
  /\ (if contains temp_marker l
      then exists tok, item_last (split l) = Ok tok
                       /\ parse_float tok = Some temp'
      else temp' = temp).
Proof.
  unfold scan_line.
  destruct (contains date_marker l) eqn:Hd;
    destruct (contains temp_marker l) eqn:Ht.
  - destruct (marker_line_has_token date_marker l (or_introl eq_refl) Hd)
      as [tok Htok].
    rewrite Htok. cbn [bind]. unfold float_of_token.
    destruct (parse_float tok) as [x|] eqn:Hx; cbn [bind]; split.
    + intros Heq. injection Heq as <- <-. split; exists tok; auto.
    + intros [[tok1 [H1 ->]] [tok2 [H2 Hx2]]].
      injection H1 as <-. injection H2 as <-.
      rewrite Hx in Hx2. now injection Hx2 as <-.
    + discriminate.
    + intros [_ [tok2 [H2 Hx2]]]. injection H2 as <-.
      rewrite Hx in Hx2. discriminate.
  - destruct (marker_line_has_token date_marker l (or_introl eq_refl) Hd)
      as [tok Htok].
    rewrite Htok. cbn [bind]. split.
    + intros Heq. injection Heq as <- <-. split; [exists tok|]; auto.
    + intros [[tok1 [H1 ->]] ->]. now injection H1 as <-.
  - destruct (marker_line_has_token temp_marker l (or_intror eq_refl) Ht)
      as [tok Htok].
    rewrite Htok. cbn [bind]. unfold float_of_token.
    destruct (parse_float tok) as [x|] eqn:Hx; cbn [bind]; split.
    + intros Heq. injection Heq as <- <-. split; [|exists tok]; auto.
    + intros [-> [tok2 [H2 Hx2]]]. injection H2 as <-.
      rewrite Hx in Hx2. now injection Hx2 as <-.
    + discriminate.
    + intros [_ [tok2 [H2 Hx2]]]. injection H2 as <-.
      rewrite Hx in Hx2. discriminate.
  - cbn [bind]. split.
    + intros Heq. injection Heq as <- <-. auto.
    + intros [-> ->]. reflexivity.
Qed.

(** The loop raises nothing but [ValueError]. *)
Lemma scan_lines_raise (lines : list string) :
  forall st e, for_loop scan_line lines st = Raise e -> e = ValueError.
Proof.
  induction lines as [|l rest IH]; intros st e; simpl; [discriminate|].
  destruct (scan_line st l) as [st'|e0] eqn:Hscan; cbn [bind].
  - apply IH.
  - intros Heq. injection Heq as <-. eapply scan_line_raises. exact Hscan.
Qed.

(** The loop returns exactly when [float] accepts the last token of every
    temperature line. *)
Lemma scan_lines_return (lines : list string) :
  forall st,
    (exists st', for_loop scan_line lines st = Ok st') <->
    (forall l, In l lines -> contains temp_marker l = true ->
               exists tok x, item_last (split l) = Ok tok
                             /\ parse_float tok = Some x).
Proof.
  induction lines as [|l rest IH]; intros [temp date]; cbn [for_loop].
  - split; [intros _ l0 [] | intros _; now eexists].
  - split.
    + intros [st' Hloop] l0 Hin Ht.
      destruct (scan_line (temp, date) l) as [[t1 d1]|e] eqn:Hscan;
        cbn [bind] in Hloop; [|discriminate].
      destruct Hin as [<- | Hin].
      * apply scan_line_Ok in Hscan. destruct Hscan as [_ Htemp].
        rewrite Ht in Htemp. destruct Htemp as [tok [Htok Hx]].
        now exists tok, t1.
      * apply (proj1 (IH (t1, d1))); [now exists st' | assumption
                                      | assumption].
    + intros Hall.
      assert (Hscan : exists st1, scan_line (temp, date) l = Ok st1).
      { destruct (scan_line (temp, date) l) as [st1|e] eqn:Hscan;
          [now exists st1|].
        pose proof (scan_line_raises _ _ _ Hscan) as ->.
        exfalso. revert Hscan. unfold scan_line.
        destruct (contains temp_marker l) eqn:Ht.
        - destruct (Hall l (or_introl eq_refl) Ht) as [tok [x [Htok Hx]]].
          rewrite Htok. unfold float_of_token.
          destruct (contains date_marker l); cbn [bind]; rewrite Hx;
            cbn [bind]; discriminate.
        - destruct (contains date_marker l) eqn:Hd; cbn [bind];
            [|discriminate].
          destruct (marker_line_has_token date_marker l
                      (or_introl eq_refl) Hd) as [tok ->].
          cbn [bind]. discriminate. }
      destruct Hscan as [st1 Hscan]. rewrite Hscan. cbn [bind].
      apply IH. intros l0 Hin. apply Hall. now right.
Qed.

(** Lines without the date marker keep the date; lines without the
    temperature marker keep the temperature. *)
Lemma scan_lines_keep_date (lines : list string) :
  (forall l, In l lines -> contains date_marker l = false) ->
  forall temp date temp' date',
    for_loop scan_line lines (temp, date) = Ok (temp', date') ->
    date' = date.
Proof.
  induction lines as [|l rest IH]; intros Hno temp date temp' date';
    cbn [for_loop].
  - intros Heq. now injection Heq as <- <-.
  - destruct (scan_line (temp, date) l) as [[t1 d1]|e] eqn:Hscan;
      cbn [bind]; [|discriminate].
    intros Hloop. apply scan_line_Ok in Hscan. destruct Hscan as [Hdate _].
    rewrite (Hno l (or_introl eq_refl)) in Hdate. subst d1.
    eapply IH; [|exact Hloop]. intros l0 Hin. apply Hno. now right.
Qed.

Lemma scan_lines_keep_temp (lines : list string) :
  (forall l, In l lines -> contains temp_marker l = false) ->
  forall temp date temp' date',
    for_loop scan_line lines (temp, date) = Ok (temp', date') ->
    temp' = temp.
Proof.
  induction lines as [|l rest IH]; intros Hno temp date temp' date';
    cbn [for_loop].
  - intros Heq. now injection Heq as <- <-.
  - destruct (scan_line (temp, date) l) as [[t1 d1]|e] eqn:Hscan;
      cbn [bind]; [|discriminate].
    intros Hloop. apply scan_line_Ok in Hscan. destruct Hscan as [_ Htemp].
    rewrite (Hno l (or_introl eq_refl)) in Htemp. subst t1.
    eapply IH; [|exact Hloop]. intros l0 Hin. apply Hno. now right.
Qed.

End ScanFacts.

(** A loop over two lists in a row is the loop over the first, then the
    loop over the second from the state reached. *)
Lemma for_loop_app {A St : Type} (body : St -> A -> result St)
  (l1 l2 : list A) :
  forall st,
    for_loop body (l1 ++ l2) st
    = bind (for_loop body l1 st) (for_loop body l2).
Proof.
  induction l1 as [|x rest IH]; intros st; simpl; [reflexivity|].
  destruct (body st x) as [st'|e]; cbn [bind]; [apply IH | reflexivity].
Qed.

(** ** Ingestion *)

(** X1.  [parse_measurement_conditions] returns exactly when [float]
    accepts the last token of every line that holds the temperature marker,
    whatever else the file holds; when it does not return, the exception is
    [ValueError]. *)
Theorem parse_measurement_conditions_returns_iff `{PyFloat} (f : cif_file) :
  ((exists t d, parse_measurement_conditions f = Ok (t, d)) <->
   (forall l, In l (readlines (text f)) -> contains temp_marker l = true ->
              exists tok x, item_last (split l) = Ok tok
                            /\ parse_float tok = Some x))
  /\ (forall e, parse_measurement_conditions f = Raise e -> e = ValueError).
Proof.
  unfold parse_measurement_conditions. split.
  - rewrite <- (scan_lines_return (readlines (text f)) (0%float, None)).
    split.
    + intros [t [d Hloop]]. now exists (t, d).
    + intros [[t d] Hloop]. now exists t, d.
  - apply scan_lines_raise.
Qed.

Lemma returns_iff_witness :
  (forall l, In l (readlines (text repeated_markers_file)) ->
             contains temp_marker l = true ->
             exists tok x, item_last (split l) = Ok tok
                           /\ @parse_float decimal_float tok = Some x)
  /\ exists t d,
       @parse_measurement_conditions decimal_float repeated_markers_file
       = Ok (t, d).
Proof.
  assert (Hall : forall l, In l (readlines (text repeated_markers_file)) ->
                           contains temp_marker l = true ->
                           exists tok x,
                             item_last (split l) = Ok tok
                             /\ @parse_float decimal_float tok = Some x).
  { intros l Hin. simpl in Hin.
    repeat (destruct Hin as [<- | Hin];
            [vm_compute; try discriminate; intros _;
             eexists; eexists; split; reflexivity|]).
    contradiction. }
  split; [exact Hall|].
  exact (proj2 (proj1 (@parse_measurement_conditions_returns_iff
                         decimal_float repeated_markers_file)) Hall).
Defined.

(** X2.  When [parse_measurement_conditions] returns, the date is the last
    token of the last line that holds the date marker, taken as it stands,
    and [None] when no line holds the marker, whether or not the file gives
    a temperature. *)
Theorem parse_measurement_conditions_last_date `{PyFloat} (f : cif_file)
  (t : float) (d : option string) :
  parse_measurement_conditions f = Ok (t, d) ->
  (forall pre l post tok,
      readlines (text f) = pre ++ l :: post ->
      contains date_marker l = true ->
      (forall l', In l' post -> contains date_marker l' = false) ->
      item_last (split l) = Ok tok ->
      d = Some tok)
  /\ ((forall l, In l (readlines (text f)) ->
                 contains date_marker l = false) ->
      d = None).
Proof.
  unfold parse_measurement_conditions. intros Hloop. split.
  - intros pre l post tok Hlines Hd Hpost Htok.
    rewrite Hlines, for_loop_app in Hloop.
    apply bind_Ok in Hloop. destruct Hloop as [[t1 d1] [_ Hloop]].
    cbn [for_loop] in Hloop. apply bind_Ok in Hloop.
    destruct Hloop as [[t2 d2] [Hscan Hloop]].
    apply scan_line_Ok in Hscan. destruct Hscan as [Hdate _].
    rewrite Hd in Hdate. destruct Hdate as [tok' [Htok' ->]].
    rewrite Htok in Htok'. injection Htok' as <-.
    now apply (scan_lines_keep_date post Hpost t2 (Some tok) t d).
  - intros Hno.
    now apply (scan_lines_keep_date _ Hno 0%float None t d).
Qed.

Lemma last_date_witness :
  @parse_measurement_conditions decimal_float repeated_markers_file
  = Ok (300%float, Some "2021-06-15"%string)
  /\ Some "2021-06-15"%string = Some "2021-06-15"%string.
Proof.
  assert (Hparse : @parse_measurement_conditions decimal_float
                     repeated_markers_file
                   = Ok (300%float, Some "2021-06-15"%string))
    by (vm_compute; reflexivity).
  split; [exact Hparse|].
  apply (proj1 (@parse_measurement_conditions_last_date decimal_float
                  repeated_markers_file _ _ Hparse)
               [line "_audit_creation_date 2019-01-01";
                line "_cell_measurement_temperature 150"]
               (line "_audit_creation_date 2021-06-15")
               [line "_cell_measurement_temperature 300"; line "loop_"]
               "2021-06-15"%string).
  - reflexivity.
  - reflexivity.
  - intros l' [<- | [<- | []]]; reflexivity.
  - reflexivity.
Defined.

(** X3.  When [parse_measurement_conditions] returns, the temperature is
    what [float] makes of the last token of the last line that holds the
    temperature marker, and 0.0 when no line holds the marker, whether or
    not the file gives a date. *)
Theorem parse_measurement_conditions_last_temperature `{PyFloat}
  (f : cif_file) (t : float) (d : option string) :
  parse_measurement_conditions f = Ok (t, d) ->
  (forall pre l post tok,
      readlines (text f) = pre ++ l :: post ->
      contains temp_marker l = true ->
      (forall l', In l' post -> contains temp_marker l' = false) ->
      item_last (split l) = Ok tok ->
      parse_float tok = Some t)
  /\ ((forall l, In l (readlines (text f)) ->
                 contains temp_marker l = false) ->
      t = 0%float).
Proof.
  unfold parse_measurement_conditions. intros Hloop. split.
  - intros pre l post tok Hlines Ht Hpost Htok.
    rewrite Hlines, for_loop_app in Hloop.
    apply bind_Ok in Hloop. destruct Hloop as [[t1 d1] [_ Hloop]].
    cbn [for_loop] in Hloop. apply bind_Ok in Hloop.
    destruct Hloop as [[t2 d2] [Hscan Hloop]].
    apply scan_line_Ok in Hscan. destruct Hscan as [_ Htemp].
    rewrite Ht in Htemp. destruct Htemp as [tok' [Htok' Hx]].
    rewrite Htok in Htok'. injection Htok' as <-.
    now rewrite (scan_lines_keep_temp post Hpost t2 d2 t d Hloop).
  - intros Hno.
    now apply (scan_lines_keep_temp _ Hno 0%float None t d).
Qed.

Lemma last_temperature_witness :
  @parse_measurement_conditions decimal_float repeated_markers_file
  = Ok (300%float, Some "2021-06-15"%string)
  /\ @parse_float decimal_float "300"%string = Some 300%float.
Proof.
  assert (Hparse : @parse_measurement_conditions decimal_float
                     repeated_markers_file
                   = Ok (300%float, Some "2021-06-15"%string))
    by (vm_compute; reflexivity).
  split; [exact Hparse|].
  apply (proj1 (@parse_measurement_conditions_last_temperature decimal_float
                  repeated_markers_file _ _ Hparse)
               [line "_audit_creation_date 2019-01-01";
                line "_cell_measurement_temperature 150";
                line "_audit_creation_date 2021-06-15"]
               (line "_cell_measurement_temperature 300")
               [line "loop_"]
               "300"%string).
  - reflexivity.
  - reflexivity.
  - intros l' [<- | []]; reflexivity.
  - reflexivity.
Defined.

Section TabulateFacts.
Context `{Pymatgen} `{PyFloat}.

Lemma info_app_nil_r (a : info) : info_app a ([], [], []) = a.
Proof. destruct a as [[s t] d]. simpl. now rewrite !app_nil_r. Qed.

Lemma info_app_assoc (a b c : info) :
  info_app (info_app a b) c = info_app a (info_app b c).
Proof.
  destruct a as [[s1 t1] d1], b as [[s2 t2] d2], c as [[s3 t3] d3].
  simpl. now rewrite <- !app_assoc.
Qed.

(** One file either raises, whatever was tabulated before it, or adds its
    own rows to what was tabulated before it. *)
Lemma tabulate_from (acc : info) (cmpd : cif_file) :
  tabulate acc cmpd
  = bind (tabulate ([], [], []) cmpd) (fun r => Ok (info_app acc r)).
Proof.
  destruct acc as [[s t] d]. unfold tabulate.
  destruct (from_file cmpd) as [struct|e]; cbn [bind]; [|reflexivity].
  destruct (is_ordered struct).
  - destruct (parse_measurement_conditions cmpd) as [[t0 d0]|e];
      cbn [bind]; reflexivity.
  - simpl. now rewrite !app_nil_r.
Qed.

Lemma tabulate_loop_from (dir : cif_directory) :
  forall acc,
    for_loop tabulate dir acc
    = bind (for_loop tabulate dir ([], [], []))
           (fun r => Ok (info_app acc r)).
Proof.
  induction dir as [|f rest IH]; intros acc; cbn [for_loop].
  - cbn [bind]. now rewrite info_app_nil_r.
  - rewrite (tabulate_from acc f).
    destruct (tabulate ([], [], []) f) as [r1|e]; cbn [bind]; [|reflexivity].
    rewrite (IH (info_app acc r1)), (IH r1).
    destruct (for_loop tabulate rest ([], [], [])) as [r2|e]; cbn [bind];
      [|reflexivity].
    now rewrite info_app_assoc.
Qed.

End TabulateFacts.

(** X4.  Listing two directories one after the other gives the rows of the
    first followed by the rows of the second, and raises what the first
    raises or else what the second raises. *)
Theorem get_stoichiometric_info_app `{Pymatgen} `{PyFloat}
  (dir1 dir2 : cif_directory) :
  get_stoichiometric_info (dir1 ++ dir2)
  = bind (get_stoichiometric_info dir1)
         (fun a => bind (get_stoichiometric_info dir2)
                        (fun b => Ok (info_app a b))).
Proof.
  unfold get_stoichiometric_info. rewrite for_loop_app.
  destruct (for_loop tabulate dir1 ([], [], [])) as [a|e]; cbn [bind];
    [|reflexivity].
  apply tabulate_loop_from.
Qed.

(** X5.  The exception [get_stoichiometric_info] raises is the one of the
    first file that fails, be it in [Structure.from_file] or, for an ordered
    structure, in [parse_measurement_conditions]; the files after it play no
    part. *)
Theorem get_stoichiometric_info_first_failure `{Pymatgen} `{PyFloat}
  (pre post : cif_directory) (f : cif_file) (done : info) (e : exn) :
  get_stoichiometric_info pre = Ok done ->
  (from_file f = Raise e
   \/ exists struct, from_file f = Ok struct /\ is_ordered struct = true
                     /\ parse_measurement_conditions f = Raise e) ->
  get_stoichiometric_info (pre ++ f :: post) = Raise e.
Proof.
  unfold get_stoichiometric_info. intros Hpre Hfail.
  rewrite for_loop_app, Hpre. cbn [bind for_loop].
  destruct done as [[ss ts] ds]. unfold tabulate.
  destruct Hfail as [Hf | [struct [Hf [Ho Hp]]]]; rewrite Hf; cbn [bind];
    [reflexivity|].
  rewrite Ho, Hp. reflexivity.
Qed.

Lemma first_failure_witness :
  @get_stoichiometric_info near_matcher decimal_float example_directory
  = Ok ([2; 4], [300%float; 0%float], [Some "2021-06-15"%string; None])
  /\ @from_file near_matcher nameless_file = Raise LibraryError
  /\ @get_stoichiometric_info near_matcher decimal_float
       (example_directory ++ nameless_file :: [malformed_file])
     = Raise LibraryError.
Proof.
  split; [exact example_directory_info|]. split; [reflexivity|].
  exact (@get_stoichiometric_info_first_failure near_matcher decimal_float
           example_directory [malformed_file] nameless_file _ LibraryError
           example_directory_info (or_introl eq_refl)).
Defined.

(** ** Grouping *)

Section DiscoveryFacts.
Context `{Pymatgen}.

Lemma discovery_subseq (stoich_refs : list Structure) :
  forall found,
    exists new,
      fold_left (fun frameworks struct_1 =>
                   if is_unique struct_1 frameworks
                   then frameworks ++ [struct_1] else frameworks)
                stoich_refs found = found ++ new
      /\ subseq new stoich_refs.
Proof.
  induction stoich_refs as [|s1 rest IH]; intros found; simpl.
  - exists []. rewrite app_nil_r. split; [reflexivity | constructor].
  - destruct (is_unique s1 found).
    + destruct (IH (found ++ [s1])) as [new [Heq Hsub]].
      exists (s1 :: new). rewrite <- app_assoc in Heq.
      split; [exact Heq | now apply subseq_keep].
    + destruct (IH found) as [new [Heq Hsub]].
      exists new. split; [exact Heq | now apply subseq_skip].
Qed.

(** Discovery leaves a list alone in which no item fits an earlier one. *)
Lemma discovery_fixed (frameworks : list Structure) :
  forall found,
    ForallOrdPairs (fun a b => fit b a = false) (found ++ frameworks) ->
    fold_left (fun frameworks struct_1 =>
                 if is_unique struct_1 frameworks
                 then frameworks ++ [struct_1] else frameworks)
              frameworks found = found ++ frameworks.
Proof.
  induction frameworks as [|x rest IH]; intros found Hfop; simpl.
  - now rewrite app_nil_r.
  - assert (Hx : is_unique x found = true).
    { rewrite is_unique_spec. apply negb_true_iff.
      destruct (existsb (fit x) found) eqn:Hex; [|reflexivity].
      apply existsb_exists in Hex. destruct Hex as [a [Ha Hfit]].
      apply In_nth_error in Ha. destruct Ha as [i Hi].
      assert (Hlt : i < length found)
        by (apply nth_error_Some; rewrite Hi; discriminate).
      assert (Hno : fit x a = false).
      { apply (ForallOrdPairs_nth _ _ Hfop i (length found) a x Hlt).
        - now rewrite nth_error_app1.
        - rewrite nth_error_app2, Nat.sub_diag; [reflexivity | lia]. }
      congruence. }
    rewrite Hx. rewrite IH; rewrite <- app_assoc; [reflexivity | exact Hfop].
Qed.

End DiscoveryFacts.

(** X6.  The frameworks found by the first loop of [get_unique_struct_info]
    are input structures in their input order, the first of them is the
    first input structure, and no framework fits a framework found before
    it, whatever the matcher does. *)
Theorem unique_frameworks_are_first_of_their_kind `{Pymatgen}
  (stoich_refs : list Structure) :
  subseq (unique_frameworks stoich_refs) stoich_refs
  /\ hd_error (unique_frameworks stoich_refs) = hd_error stoich_refs
  /\ forall i j a b,
       i < j ->
       nth_error (unique_frameworks stoich_refs) i = Some a ->
       nth_error (unique_frameworks stoich_refs) j = Some b ->
       fit b a = false.
Proof.
  split; [|split].
  - destruct (discovery_subseq stoich_refs []) as [new [Heq Hsub]].
    unfold unique_frameworks. now rewrite Heq.
  - destruct stoich_refs as [|s rest]; [reflexivity|].
    unfold unique_frameworks. simpl.
    destruct (discovery_subseq rest [s]) as [new [Heq _]].
    now rewrite Heq.
  - destruct (unique_frameworks_spec stoich_refs) as [_ [Hfop _]].
    intros i j a b Hlt Hi Hj.
    exact (ForallOrdPairs_nth _ _ Hfop i j a b Hlt Hi Hj).
Qed.

Lemma first_of_their_kind_witness :
  nth_error (@unique_frameworks near_matcher [0; 1; 2; 3; 4]) 0 = Some 0
  /\ nth_error (@unique_frameworks near_matcher [0; 1; 2; 3; 4]) 1 = Some 2
  /\ near 2 0 = false.
Proof.
  split; [reflexivity|]. split; [reflexivity|].
  exact (proj2 (proj2 (@unique_frameworks_are_first_of_their_kind
                         near_matcher [0; 1; 2; 3; 4]))
               0 1 0 2 (le_n 1) eq_refl eq_refl).
Defined.

(** X7.  Running the discovery on the frameworks themselves returns them
    unchanged, whatever the matcher does. *)
Theorem unique_frameworks_idempotent `{Pymatgen}
  (stoich_refs : list Structure) :
  unique_frameworks (unique_frameworks stoich_refs)
  = unique_frameworks stoich_refs.
Proof.
  destruct (unique_frameworks_spec stoich_refs) as [_ [Hfop _]].
  unfold unique_frameworks at 1.
  now rewrite (discovery_fixed (unique_frameworks stoich_refs) []).
Qed.

(** X8.  The group at an index holds exactly the input entries that the
    framework at that index fits, as [fit(framework, struct)] answers: every
    member of a group fits the group's framework and no fitting entry is
    left out. *)
Theorem group_members_fit_their_framework `{Pymatgen}
  (stoich_refs : list Structure) (temps : list float)
  (dates : list (option string)) (gs : list (list Structure))
  (gt : list (list float)) (gd : list (list (option string))) (k : nat)
  (framework : Structure)
  (g : list Structure * list float * list (option string)) :
  get_unique_struct_info stoich_refs temps dates = (gs, gt, gd) ->
  nth_error (unique_frameworks stoich_refs) k = Some framework ->
  nth_error (zip3 gs gt gd) k = Some g ->
  forall e,
    In e (entries_of g) <->
    In e (zip3 stoich_refs temps dates) /\ fit framework (fst (fst e)) = true.
Proof.
  intros Hg Hk Hgk e.
  apply (group_of_framework _ _ _ _ _ _ _ _ Hg) in Hgk.
  destruct Hgk as [f' [Hk' ->]].
  rewrite Hk in Hk'. injection Hk' as <-.
  rewrite struct_class_entries. apply filter_In.
Qed.

Lemma group_members_witness :
  In (1, 293%float, @None string)
     (entries_of ([2; 1], [320%float; 293%float], [@None string; None]))
  <-> In (1, 293%float, @None string)
         (zip3 [0; 2; 1] [150%float; 320%float; 293%float]
               [@None string; None; None])
      /\ near 2 1 = true.
Proof.
  exact (@group_members_fit_their_framework near_matcher
           [0; 2; 1] [150%float; 320%float; 293%float] [None; None; None]
           [[0; 1]; [2; 1]]
           [[150%float; 293%float]; [320%float; 293%float]]
           [[None; None]; [None; None]] 1 2
           ([2; 1], [320%float; 293%float], [None; None])
           eq_refl eq_refl eq_refl (1, 293%float, None)).
Defined.

Lemma struct_class_holds_framework `{Pymatgen}
  (stoich_refs : list Structure) (temps : list float)
  (dates : list (option string)) (k : nat) (framework : Structure) :
  length temps = length stoich_refs -> length dates = length stoich_refs ->
  (forall a, In a stoich_refs -> fit a a = true) ->
  nth_error (unique_frameworks stoich_refs) k = Some framework ->
  exists t d,
    In (framework, t, d)
       (entries_of (struct_class framework stoich_refs temps dates)).
Proof.
  intros Hlt Hld Hrefl Hk.
  destruct (unique_frameworks_spec stoich_refs) as [Hincl _].
  assert (Hin : In framework stoich_refs)
    by (apply Hincl; eapply nth_error_In; exact Hk).
  destruct (zip3_In_fst stoich_refs temps dates Hlt Hld framework Hin)
    as [t [d Htd]].
  exists t, d.
  rewrite struct_class_entries. apply filter_In. split; [exact Htd|].
  now apply Hrefl.
Qed.

(** X9.  When the input lists are parallel and every input structure fits
    itself, no group is empty: the group of a framework holds an entry of
    the framework itself. *)
Theorem groups_are_not_empty `{Pymatgen}
  (stoich_refs : list Structure) (temps : list float)
  (dates : list (option string)) (gs : list (list Structure))
  (gt : list (list float)) (gd : list (list (option string))) :
  length temps = length stoich_refs -> length dates = length stoich_refs ->
  (forall a, In a stoich_refs -> fit a a = true) ->
  get_unique_struct_info stoich_refs temps dates = (gs, gt, gd) ->
  forall k g,
    nth_error (zip3 gs gt gd) k = Some g ->
    exists framework t d,
      nth_error (unique_frameworks stoich_refs) k = Some framework
      /\ In (framework, t, d) (entries_of g).
Proof.
  intros Hlt Hld Hrefl Hg k g Hk.
  apply (group_of_framework _ _ _ _ _ _ _ _ Hg) in Hk.
  destruct Hk as [framework [Hk ->]].
  destruct (struct_class_holds_framework stoich_refs temps dates k framework
              Hlt Hld Hrefl Hk) as [t [d Htd]].
  now exists framework, t, d.
Qed.

Lemma groups_are_not_empty_witness :
  (forall a, In a [0; 2; 1] -> near a a = true)
  /\ exists framework t d,
       nth_error (@unique_frameworks near_matcher [0; 2; 1]) 1
       = Some framework
       /\ In (framework, t, d)
             (entries_of ([2; 1], [320%float; 293%float],
                          [@None string; None])).
Proof.
  assert (Hrefl : forall a, In a [0; 2; 1] -> near a a = true)
    by (intros a _; apply near_refl).
  split; [exact Hrefl|].
  exact (@groups_are_not_empty near_matcher
           [0; 2; 1] [150%float; 320%float; 293%float] [None; None; None]
           [[0; 1]; [2; 1]]
           [[150%float; 293%float]; [320%float; 293%float]]
           [[None; None]; [None; None]]
           eq_refl eq_refl Hrefl eq_refl 1
           ([2; 1], [320%float; 293%float], [None; None]) eq_refl).
Defined.

(** ** Selection *)

Lemma for_loop_collect_Raise {A B : Type} (f : A -> result B)
  (items : list A) (e : exn) :
  forall acc,
    for_loop (fun st x => y <- f x ;; Ok (st ++ [y]))%py items acc = Raise e ->
    exists x, In x items /\ f x = Raise e.
Proof.
  induction items as [|x0 rest IH]; intros acc; cbn [for_loop].
  - discriminate.
  - destruct (f x0) as [y|e0] eqn:Hf0; cbn [bind].
    + intros Hloop. destruct (IH _ Hloop) as [x [Hin Hx]].
      exists x. split; [now right | exact Hx].
    + intros Heq. injection Heq as <-. exists x0. split; [now left|].
      exact Hf0.
Qed.

Lemma item_first_raise {A : Type} (l : list A) (e : exn) :
  item_first l = Raise e -> e = IndexError.
Proof. destruct l; simpl; [|discriminate]. intros Heq. now injection Heq. Qed.

Lemma item_last_raise {A : Type} (l : list A) (e : exn) :
  item_last l = Raise e -> e = IndexError.
Proof.
  induction l as [|x rest IH]; simpl.
  - intros Heq. now injection Heq.
  - destruct rest; [discriminate | exact IH].
Qed.

(** The comparison of floats never raises, so the sort by deviation always
    returns. *)
Lemma sorted_float_returns {A : Type} (key : A -> float) (l : list A) :
  exists l', sorted float_lt key l = Ok l'.
Proof.
  assert (Hins : forall x r, exists r', insert_by float_lt key x r = Ok r').
  { intros x r. induction r as [|y rest [r' IH]]; simpl.
    - now eexists.
    - destruct (PrimFloat.ltb (key y) (key x)).
      + rewrite IH. cbn [bind]. now eexists.
      + now eexists. }
  induction l as [|x rest [r IH]]; simpl.
  - now eexists.
  - rewrite IH. cbn [bind]. apply Hins.
Qed.

Section SelectionOutcomes.
Context {Cmpd : Type}.

(** A returned structure belongs to an entry of the group. *)
Lemma select_member (g : list Cmpd * list float * list (option string))
  (final : Cmpd) :
  select g = Ok final ->
  exists e, In e (entries_of g) /\ entry_struct e = final.
Proof.
  destruct g as [[sc tc] dc]. unfold select, entries_of. cbn [fst snd].
  rewrite recent_RT_entry_unfold. intros Hsel.
  apply bind_Ok in Hsel. destruct Hsel as [l1 [Hsort Hsel]].
  apply bind_Ok in Hsel. destruct Hsel as [best [_ Hsel]].
  apply bind_Ok in Hsel. destruct Hsel as [l2 [Hsort2 Hsel]].
  apply bind_Ok in Hsel. destruct Hsel as [z [Hlast Hsel]].
  injection Hsel as <-.
  apply item_last_In in Hlast.
  apply sorted_perm, Permutation_sym in Hsort2.
  apply (Permutation_in _ Hsort2) in Hlast.
  apply in_map_iff in Hlast. destruct Hlast as [ne [<- Hne]].
  apply filter_In in Hne. destruct Hne as [Hne _].
  apply sorted_perm, Permutation_sym in Hsort.
  apply (Permutation_in _ Hsort) in Hne.
  apply in_map_iff in Hne. destruct Hne as [e [<- He]].
  exists e. split; [exact He|].
  now destruct (normalize_fields e) as [-> _].
Qed.

(** A group makes the selection raise nothing but [IndexError] and
    [TypeError]. *)
Lemma select_raises (g : list Cmpd * list float * list (option string))
  (e : exn) :
  select g = Raise e -> e = IndexError \/ e = TypeError.
Proof.
  destruct g as [[sc tc] dc]. unfold select. cbn [fst snd].
  rewrite recent_RT_entry_unfold.
  destruct (sorted_float_returns (@entry_temp Cmpd)
              (map normalize (zip3 sc tc dc))) as [l1 ->].
  cbn [bind].
  destruct (item_first l1) as [best|e0] eqn:Hfirst; cbn [bind].
  - destruct (sorted date_lt snd
                (map (fun e : @entry Cmpd => (entry_struct e, entry_date e))
                     (filter (tied best) l1))) as [l2|e0] eqn:Hsort2;
      cbn [bind].
    + destruct (item_last l2) as [z|e0] eqn:Hlast; cbn [bind];
        [discriminate|].
      intros Heq. injection Heq as <-. left.
      eapply item_last_raise. exact Hlast.
    + intros Heq. injection Heq as <-. right.
      eapply sorted_date_raises. exact Hsort2.
  - intros Heq. injection Heq as <-. left.
    eapply item_first_raise. exact Hfirst.
Qed.

End SelectionOutcomes.

(** X10.  For groups none of whose deviations |temperature - 293.0| is NaN:
    when [get_recent_RT_entry] returns, it returns one structure per group,
    in the order of the groups, and each is the structure of an entry of its
    own group, whatever the dates are.  (Without NaN the comparison [<]
    orders the deviations and the sort above is the sort of Python.) *)
Theorem get_recent_RT_entry_returns_members {Cmpd : Type}
  (gs : list (list Cmpd)) (gt : list (list float))
  (gd : list (list (option string))) (out : list Cmpd) :
  (forall g, In g (zip3 gs gt gd) ->
     forall e, In e (entries_of g) ->
               PrimFloat.is_nan (deviation e) = false) ->
  get_recent_RT_entry gs gt gd = Ok out ->
  length out = length (zip3 gs gt gd)
  /\ Forall2 (fun g final =>
                exists e, In e (entries_of g) /\ entry_struct e = final)
             (zip3 gs gt gd) out.
Proof.
  intros _ Hget. apply get_recent_RT_entry_groups in Hget. split.
  - symmetry. eapply Forall2_length. exact Hget.
  - eapply Forall2_impl; [|exact Hget]. intros g final. apply select_member.
Qed.

Lemma returns_members_witness :
  (forall g,
      In g (zip3 [[1; 2]; [3]] [[150%float; 300%float]; [293%float]]
                 [[Some "2019-01-01"; Some "2022-03-03"]; [None]]%string) ->
      forall e, In e (entries_of g) ->
                PrimFloat.is_nan (deviation e) = false)
  /\ get_recent_RT_entry [[1; 2]; [3]]
       [[150%float; 300%float]; [293%float]]
       [[Some "2019-01-01"; Some "2022-03-03"]; [None]]%string = Ok [2; 3]
  /\ length [2; 3]
     = length (zip3 [[1; 2]; [3]] [[150%float; 300%float]; [293%float]]
                    [[Some "2019-01-01"; Some "2022-03-03"]; [None]]%string).
Proof.
  assert (Hnum : forall g,
             In g (zip3 [[1; 2]; [3]] [[150%float; 300%float]; [293%float]]
                        [[Some "2019-01-01"; Some "2022-03-03"]; [None]]%string) ->
             forall e, In e (entries_of g) ->
                       PrimFloat.is_nan (deviation e) = false).
  { intros g [<- | [<- | []]] e.
    - intros [<- | [<- | []]]; reflexivity.
    - intros [<- | []]; reflexivity. }
  assert (Hget : get_recent_RT_entry [[1; 2]; [3]]
                   [[150%float; 300%float]; [293%float]]
                   [[Some "2019-01-01"; Some "2022-03-03"]; [None]]%string
                 = Ok [2; 3]) by (vm_compute; reflexivity).
  split; [exact Hnum|]. split; [exact Hget|].
  exact (proj1 (@get_recent_RT_entry_returns_members nat _ _ _ _ Hnum Hget)).
Defined.

(** X11.  For groups none of whose deviations |temperature - 293.0| is NaN,
    [get_recent_RT_entry] raises nothing but [IndexError] (an empty list was
    indexed) and [TypeError] (a date [None] was compared). *)
Theorem get_recent_RT_entry_raises_only {Cmpd : Type}
  (gs : list (list Cmpd)) (gt : list (list float))
  (gd : list (list (option string))) (e : exn) :
  (forall g, In g (zip3 gs gt gd) ->
     forall e', In e' (entries_of g) ->
                PrimFloat.is_nan (deviation e') = false) ->
  get_recent_RT_entry gs gt gd = Raise e ->
  e = IndexError \/ e = TypeError.
Proof.
  intros _. rewrite get_recent_RT_entry_eq. intros Hget.
  apply for_loop_collect_Raise in Hget. destruct Hget as [g [_ Hg]].
  eapply select_raises. exact Hg.
Qed.

Lemma raises_only_witness :
  (forall g,
      In g (zip3 [[1; 2]] [[292%float; 294%float]]
                 [[None; Some "2021-06-15"%string]]) ->
      forall e', In e' (entries_of g) ->
                 PrimFloat.is_nan (deviation e') = false)
  /\ get_recent_RT_entry [[1; 2]] [[292%float; 294%float]]
       [[None; Some "2021-06-15"%string]] = Raise TypeError
  /\ (TypeError = IndexError \/ TypeError = TypeError).
Proof.
  assert (Hnum : forall g,
             In g (zip3 [[1; 2]] [[292%float; 294%float]]
                        [[None; Some "2021-06-15"%string]]) ->
             forall e', In e' (entries_of g) ->
                        PrimFloat.is_nan (deviation e') = false).
  { intros g [<- | []] e' [<- | [<- | []]]; reflexivity. }
  assert (Hget : get_recent_RT_entry [[1; 2]] [[292%float; 294%float]]
                   [[None; Some "2021-06-15"%string]] = Raise TypeError)
    by (vm_compute; reflexivity).
  split; [exact Hnum|]. split; [exact Hget|].
  exact (@get_recent_RT_entry_raises_only nat _ _ _ _ Hnum Hget).
Defined.

Lemma get_recent_RT_entry_single {Cmpd : Type} (sc : list Cmpd)
  (tc : list float) (dc : list (option string)) :
  get_recent_RT_entry [sc] [tc] [dc]
  = bind (recent_RT_entry sc tc dc) (fun final => Ok [final]).
Proof.
  unfold get_recent_RT_entry. simpl.
  destruct (recent_RT_entry sc tc dc); reflexivity.
Qed.

(** X12.  For a group none of whose deviations is NaN,
    [get_recent_RT_entry] raises [IndexError] exactly when the group has no
    entry: a group with an entry yields a structure or [TypeError]. *)
Theorem get_recent_RT_entry_IndexError_iff_empty {Cmpd : Type}
  (sc : list Cmpd) (tc : list float) (dc : list (option string)) :
  (forall e, In e (zip3 sc tc dc) ->
             PrimFloat.is_nan (deviation e) = false) ->
  (get_recent_RT_entry [sc] [tc] [dc] = Raise IndexError <->
   zip3 sc tc dc = []).
Proof.
  intros Hnum. rewrite get_recent_RT_entry_single. split.
  - intros Hraise.
    destruct (zip3 sc tc dc) as [|e0 es] eqn:Hes; [reflexivity|]. exfalso.
    rewrite recent_RT_entry_unfold, Hes in Hraise.
    destruct (first_sort (map normalize (e0 :: es)))
      as [best [rest [Hsort [Hperm _]]]].
    { discriminate. }
    { apply Forall_forall. intros ne Hin. apply in_map_iff in Hin.
      destruct Hin as [e [<- He]].
      destruct (normalize_fields e) as [_ [-> _]]. now apply Hnum. }
    rewrite Hsort in Hraise. cbn [bind item_first] in Hraise.
    assert (Hbest : In best (filter (tied best) (best :: rest))).
    { apply filter_In. split; [now left|]. apply tied_refl.
      assert (Hin : In best (map normalize (e0 :: es))).
      { apply Permutation_sym in Hperm. apply (Permutation_in _ Hperm).
        now left. }
      apply in_map_iff in Hin. destruct Hin as [e [<- He]].
      destruct (normalize_fields e) as [_ [-> _]]. now apply Hnum. }
    destruct (sorted date_lt snd
                (map (fun e : @entry Cmpd => (entry_struct e, entry_date e))
                     (filter (tied best) (best :: rest))))
      as [l2|e] eqn:Hsort2; cbn [bind] in Hraise.
    + destruct (item_last_not_nil l2) as [z Hz].
      { intros ->. apply sorted_perm, Permutation_sym in Hsort2.
        apply Permutation_nil in Hsort2.
        destruct (filter (tied best) (best :: rest)); [contradiction|].
        discriminate. }
      rewrite Hz in Hraise. discriminate.
    + apply sorted_date_raises in Hsort2. subst e. discriminate.
  - intros Hes. now rewrite (recent_RT_entry_empty sc tc dc Hes).
Qed.

Lemma IndexError_iff_empty_witness :
  (forall e, In e (zip3 [1] (@nil float) [Some "2020-01-01"%string]) ->
             PrimFloat.is_nan (deviation e) = false)
  /\ (get_recent_RT_entry [[1]] [[]] [[Some "2020-01-01"%string]]
      = Raise IndexError
      <-> zip3 [1] (@nil float) [Some "2020-01-01"%string] = []).
Proof.
  assert (Hnum : forall e,
             In e (zip3 [1] (@nil float) [Some "2020-01-01"%string]) ->
             PrimFloat.is_nan (deviation e) = false)
    by (intros e []).
  split; [exact Hnum|].
  exact (@get_recent_RT_entry_IndexError_iff_empty nat
           [1] [] [Some "2020-01-01"%string] Hnum).
Defined.

(** ** The sort is stable *)

Section StableSort.
Context {A K : Type}.
Variable lt : K -> K -> result bool.
Variable key : A -> K.

(** Items that [lt] does not order strictly keep their order. *)
Lemma insert_by_filter (p : A -> bool) (x : A) (r : list A) :
  (forall y, In y r -> p x = true -> p y = true ->
             lt (key y) (key x) <> Ok true) ->
  forall r', insert_by lt key x r = Ok r' -> filter p r' = filter p (x :: r).
Proof.
  induction r as [|y rest IH]; intros Hp r'; cbn [insert_by].
  - intros Heq. now injection Heq as <-.
  - destruct (lt (key y) (key x)) as [[|]|e] eqn:Hlt; cbn [bind];
      try discriminate.
    + destruct (insert_by lt key x rest) as [r1|e] eqn:Hins; cbn [bind];
        [|discriminate].
      intros Heq. injection Heq as <-.
      assert (IH' : filter p r1 = filter p (x :: rest)).
      { apply IH; [|reflexivity]. intros y0 Hy0. apply Hp. now right. }
      cbn [filter] in *. rewrite IH'.
      destruct (p x) eqn:Hpx; [|reflexivity].
      destruct (p y) eqn:Hpy; [|reflexivity].
      exfalso. now apply (Hp y (or_introl eq_refl) eq_refl Hpy).
    + intros Heq. now injection Heq as <-.
Qed.

Lemma sorted_filter (p : A -> bool) (l : list A) :
  (forall x y, In x l -> In y l -> p x = true -> p y = true ->
               lt (key y) (key x) <> Ok true) ->
  forall l', sorted lt key l = Ok l' -> filter p l' = filter p l.
Proof.
  induction l as [|x rest IH]; intros Hp l'; cbn [sorted].
  - intros Heq. now injection Heq as <-.
  - destruct (sorted lt key rest) as [r|e] eqn:Hr; cbn [bind];
      [|discriminate].
    intros Hins.
    rewrite (insert_by_filter p x r) with (r' := l'); [|
      | exact Hins].
    + cbn [filter]. rewrite (IH) with (l' := r); [reflexivity| |reflexivity].
      intros a b Ha Hb. apply Hp; now right.
    + intros y Hy. apply Hp; [now left|].
      right. apply sorted_perm, Permutation_sym in Hr.
      now apply (Permutation_in _ Hr).
Qed.

(** An item greater than all the items sorted so far goes to the end. *)
Lemma insert_by_after_all (x : A) (r : list A) :
  (forall y, In y r -> lt (key y) (key x) = Ok true) ->
  insert_by lt key x r = Ok (r ++ [x]).
Proof.
  induction r as [|y rest IH]; intros Hall; cbn [insert_by].
  - reflexivity.
  - rewrite (Hall y (or_introl eq_refl)). cbn [bind].
    rewrite IH; [reflexivity|]. intros y0 Hy0. apply Hall. now right.
Qed.

(** An item that the last item is not below leaves the last item last. *)
Lemma insert_by_keeps_last (x z : A) (r : list A) :
  item_last r = Ok z -> lt (key z) (key x) = Ok false ->
  (forall y, In y r -> exists b, lt (key y) (key x) = Ok b) ->
  exists r', insert_by lt key x r = Ok r' /\ item_last r' = Ok z.
Proof.
  induction r as [|y rest IH]; intros Hlast Hz Htot; [discriminate|].
  cbn [insert_by].
  destruct rest as [|y' rest'].
  - simpl in Hlast. injection Hlast as ->. rewrite Hz. cbn [bind].
    now eexists.
  - destruct (Htot y (or_introl eq_refl)) as [[|] Hy]; rewrite Hy;
      cbn [bind].
    + destruct IH as [r1 [Hins Hr1]]; [exact Hlast | exact Hz | |].
      { intros y0 Hy0. apply Htot. now right. }
      rewrite Hins. cbn [bind]. eexists. split; [reflexivity|].
      destruct r1 as [|a r1']; [discriminate|]. exact Hr1.
    + eexists. split; [reflexivity|]. exact Hlast.
Qed.

Lemma item_last_snoc (r : list A) (x : A) : item_last (r ++ [x]) = Ok x.
Proof.
  induction r as [|y rest IH]; [reflexivity|].
  simpl. destruct (rest ++ [x]) eqn:Heq; [|exact IH].
  destruct rest; discriminate.
Qed.

(** The last item of the sorted list: the item that every later item is
    strictly below and that no earlier item is above. *)
Lemma sorted_last_stable (pre post : list A) (z : A) :
  (forall a b, In a (pre ++ z :: post) -> In b (pre ++ z :: post) ->
               exists r, lt (key a) (key b) = Ok r) ->
  (forall y, In y post -> lt (key y) (key z) = Ok true) ->
  (forall y, In y pre -> lt (key z) (key y) = Ok false) ->
  exists l', sorted lt key (pre ++ z :: post) = Ok l' /\ item_last l' = Ok z.
Proof.
  assert (Hsorted : forall l,
             (forall a b, In a l -> In b l ->
                          exists r, lt (key a) (key b) = Ok r) ->
             exists l', sorted lt key l = Ok l').
  { induction l as [|x rest IH]; intros Htot; cbn [sorted].
    - now eexists.
    - destruct IH as [r Hr].
      { intros a b Ha Hb. apply Htot; now right. }
      rewrite Hr. cbn [bind].
      assert (Hin : forall y, In y r -> In y rest).
      { intros y Hy. apply sorted_perm, Permutation_sym in Hr.
        now apply (Permutation_in _ Hr). }
      clear Hr. induction r as [|y r' IHr]; cbn [insert_by].
      + now eexists.
      + destruct (Htot y x) as [[|] Hy];
          [right; apply Hin; now left | now left | |];
          rewrite Hy; cbn [bind].
        * destruct IHr as [r1 Hr1].
          { intros y0 Hy0. apply Hin. now right. }
          rewrite Hr1. cbn [bind]. now eexists.
        * now eexists. }
  induction pre as [|x pre' IH]; intros Htot Hpost Hpre.
  - cbn [app sorted]. destruct (Hsorted post) as [r Hr].
    { intros a b Ha Hb. apply Htot; now right. }
    rewrite Hr. cbn [bind]. exists (r ++ [z]). split.
    + apply insert_by_after_all. intros y Hy. apply Hpost.
      apply sorted_perm, Permutation_sym in Hr.
      now apply (Permutation_in _ Hr).
    + apply item_last_snoc.
  - cbn [app sorted].
    destruct IH as [r [Hr Hlast]].
    { intros a b Ha Hb. apply Htot; now right. }
    { exact Hpost. }
    { intros y Hy. apply Hpre. now right. }
    rewrite Hr. cbn [bind].
    apply insert_by_keeps_last; [exact Hlast | |].
    + apply Hpre. now left.
    + intros y Hy. apply Htot; [right|now left].
      apply sorted_perm, Permutation_sym in Hr.
      now apply (Permutation_in _ Hr).
Qed.

End StableSort.

Lemma string_leb_not_ltb (s1 s2 : string) :
  String.leb s1 s2 = true -> String.ltb s2 s1 = false.
Proof.
  unfold String.ltb, String.leb. rewrite (String.compare_antisym s1 s2).
  destruct (String.compare s2 s1); simpl; intros; try discriminate;
    reflexivity.
Qed.

Lemma float_eqb_same_class (a b x : float) :
  PrimFloat.leb a b = true -> PrimFloat.leb b a = true ->
  PrimFloat.eqb x a = PrimFloat.eqb x b.
Proof.
  intros Hab Hba.
  destruct (PrimFloat.eqb x a) eqn:Ha, (PrimFloat.eqb x b) eqn:Hb;
    try reflexivity.
  - apply float_eqb_leb in Ha. destruct Ha as [Hxa Hax].
    assert (Hyes : PrimFloat.eqb x b = true).
    { apply float_eqb_leb. split; eapply float_leb_trans; eassumption. }
    congruence.
  - apply float_eqb_leb in Hb. destruct Hb as [Hxb Hbx].
    assert (Hyes : PrimFloat.eqb x a = true).
    { apply float_eqb_leb. split; eapply float_leb_trans; eassumption. }
    congruence.
Qed.

Section LatestInInputOrder.
Context {Cmpd : Type}.

(** The candidates that come from a part of the group. *)
Lemma candidates_of (e : @entry Cmpd) (l : list (@entry Cmpd))
  (c : Cmpd * option string) :
  In c (map (fun x : @entry Cmpd => (entry_struct x, entry_date x))
            (filter (tied (normalize e)) (map normalize l))) ->
  exists e', In e' l
             /\ PrimFloat.eqb (deviation e') (deviation e) = true
             /\ c = (entry_struct e', entry_date e').
Proof.
  intros Hc. apply in_map_iff in Hc. destruct Hc as [ne [<- Hne]].
  apply filter_In in Hne. destruct Hne as [Hin Htie].
  apply in_map_iff in Hin. destruct Hin as [e' [<- He']].
  exists e'. split; [exact He'|].
  unfold tied in Htie.
  destruct (normalize_fields e') as [Hs [Ht Hd]].
  destruct (normalize_fields e) as [_ [Ht0 _]].
  rewrite Ht, Ht0 in Htie. split; [exact Htie|]. now rewrite Hs, Hd.
Qed.

Lemma recent_RT_entry_latest (sc : list Cmpd) (tc : list float)
  (dc : list (option string)) (pre post : list (@entry Cmpd))
  (e : @entry Cmpd) (d : string) :
  zip3 sc tc dc = pre ++ e :: post ->
  PrimFloat.is_nan (deviation e) = false ->
  entry_date e = Some d ->
  (forall e', In e' (pre ++ post) ->
              PrimFloat.leb (deviation e) (deviation e') = true) ->
  (forall e', In e' pre ->
              PrimFloat.eqb (deviation e') (deviation e) = true ->
              exists d', entry_date e' = Some d' /\ String.leb d' d = true) ->
  (forall e', In e' post ->
              PrimFloat.eqb (deviation e') (deviation e) = true ->
              exists d', entry_date e' = Some d' /\ String.ltb d' d = true) ->
  recent_RT_entry sc tc dc = Ok (entry_struct e).
Proof.
  intros Hes Hnum Hdate Hleast Hpre Hpost.
  rewrite recent_RT_entry_unfold, Hes.
  assert (Hle : forall e', In e' (pre ++ e :: post) ->
                           PrimFloat.leb (deviation e) (deviation e') = true).
  { intros e' He'. apply in_app_or in He'.
    destruct He' as [He' | [<- | He']].
    - apply Hleast, in_or_app. now left.
    - now apply float_leb_refl.
    - apply Hleast, in_or_app. now right. }
  destruct (first_sort (map normalize (pre ++ e :: post)))
    as [best [rest [Hsort [Hperm Hmin]]]].
  { destruct pre; discriminate. }
  { apply Forall_forall. intros ne Hin. apply in_map_iff in Hin.
    destruct Hin as [e' [<- He']].
    destruct (normalize_fields e') as [_ [-> _]].
    now destruct (float_leb_not_nan _ _ (Hle e' He')). }
  rewrite Hsort. cbn [bind item_first].
  destruct (normalize_fields e) as [Hs [Ht Hd]].
  assert (Hbest_ge : PrimFloat.leb (entry_temp (normalize e))
                                   (entry_temp best) = true).
  { assert (Hin : In best (map normalize (pre ++ e :: post))).
    { apply Permutation_sym in Hperm. apply (Permutation_in _ Hperm).
      now left. }
    apply in_map_iff in Hin. destruct Hin as [e' [<- He']].
    destruct (normalize_fields e') as [_ [-> _]]. rewrite Ht.
    now apply Hle. }
  assert (Hbest_le : PrimFloat.leb (entry_temp best)
                                   (entry_temp (normalize e)) = true).
  { apply Hmin, in_map, in_or_app. right. now left. }
  assert (Hclass : filter (tied best) (best :: rest)
                   = filter (tied (normalize e))
                            (map normalize (pre ++ e :: post))).
  { transitivity (filter (tied (normalize e)) (best :: rest)).
    - apply filter_ext. intros x. unfold tied.
      now apply float_eqb_same_class.
    - apply (sorted_filter float_lt entry_temp) ; [|exact Hsort].
      intros x y _ _ Hx Hy Hlt. unfold tied in Hx, Hy.
      unfold float_lt in Hlt. injection Hlt as Hlt.
      apply float_ltb_not_leb in Hlt.
      apply float_eqb_leb in Hx, Hy.
      destruct Hx as [Hx _], Hy as [_ Hy].
      rewrite (float_leb_trans _ _ _ Hx Hy) in Hlt. discriminate. }
  rewrite Hclass, map_app, filter_app. cbn [map filter].
  rewrite (tied_refl (normalize e)) by (now rewrite Ht).
  rewrite map_app. cbn [map].
  destruct (sorted_last_stable date_lt (@snd Cmpd (option string))
              (map (fun x : @entry Cmpd => (entry_struct x, entry_date x))
                   (filter (tied (normalize e)) (map normalize pre)))
              (map (fun x : @entry Cmpd => (entry_struct x, entry_date x))
                   (filter (tied (normalize e)) (map normalize post)))
              (entry_struct (normalize e), entry_date (normalize e)))
    as [l2 [Hsort2 Hlast]].
  - assert (Hsome : forall a,
               In a (map (fun x : @entry Cmpd =>
                            (entry_struct x, entry_date x))
                         (filter (tied (normalize e)) (map normalize pre))
                     ++ (entry_struct (normalize e),
                         entry_date (normalize e))
                     :: map (fun x : @entry Cmpd =>
                               (entry_struct x, entry_date x))
                            (filter (tied (normalize e))
                                    (map normalize post))) ->
               exists da, snd a = Some da).
    { intros a Ha. apply in_app_or in Ha. destruct Ha as [Ha | [<- | Ha]].
      - apply candidates_of in Ha. destruct Ha as [e' [He' [Htie ->]]].
        destruct (Hpre e' He' Htie) as [d' [Hd' _]]. now exists d'.
      - exists d. cbn [snd]. now rewrite Hd.
      - apply candidates_of in Ha. destruct Ha as [e' [He' [Htie ->]]].
        destruct (Hpost e' He' Htie) as [d' [Hd' _]]. now exists d'. }
    intros a b Ha Hb.
    destruct (Hsome a Ha) as [da ->], (Hsome b Hb) as [db ->].
    now eexists.
  - intros y Hy. apply candidates_of in Hy.
    destruct Hy as [e' [He' [Htie ->]]].
    destruct (Hpost e' He' Htie) as [d' [Hd' Hlt]].
    cbn [snd]. rewrite Hd, Hdate, Hd'. simpl. now rewrite Hlt.
  - intros y Hy. apply candidates_of in Hy.
    destruct Hy as [e' [He' [Htie ->]]].
    destruct (Hpre e' He' Htie) as [d' [Hd' Hleb]].
    cbn [snd]. rewrite Hd, Hdate, Hd'. simpl.
    now rewrite (string_leb_not_ltb _ _ Hleb).
  - rewrite Hsort2. cbn [bind]. rewrite Hlast. cbn [bind fst].
    now rewrite Hs.
Qed.

End LatestInInputOrder.

(** X13.  Which entry [get_recent_RT_entry] picks in a group none of whose
    deviations |temperature - 293.0| is NaN: an entry [e] of least deviation
    that is dated by a string is returned when every entry of the same
    deviation before it in the group is dated by a string no greater, and
    every entry of the same deviation after it by a string strictly smaller;
    that is, the entry of least deviation and greatest date and, when
    several entries share both, the one that comes last in the group.  The
    entries of greater deviation may be dated [None]. *)
Theorem get_recent_RT_entry_picks_last_of_the_best {Cmpd : Type}
  (sc : list Cmpd) (tc : list float) (dc : list (option string))
  (pre post : list (Cmpd * float * option string))
  (e : Cmpd * float * option string) (d : string) :
  (forall e', In e' (zip3 sc tc dc) ->
              PrimFloat.is_nan (deviation e') = false) ->
  zip3 sc tc dc = pre ++ e :: post ->
  entry_date e = Some d ->
  (forall e', In e' (pre ++ post) ->
              PrimFloat.leb (deviation e) (deviation e') = true) ->
  (forall e', In e' pre ->
              PrimFloat.eqb (deviation e') (deviation e) = true ->
              exists d', entry_date e' = Some d' /\ String.leb d' d = true) ->
  (forall e', In e' post ->
              PrimFloat.eqb (deviation e') (deviation e) = true ->
              exists d', entry_date e' = Some d' /\ String.ltb d' d = true) ->
  get_recent_RT_entry [sc] [tc] [dc] = Ok [entry_struct e].
Proof.
  intros Hnum Hes Hdate Hleast Hpre Hpost.
  assert (He : PrimFloat.is_nan (deviation e) = false).
  { apply Hnum. rewrite Hes. apply in_or_app. right. now left. }
  rewrite get_recent_RT_entry_single.
  now rewrite (recent_RT_entry_latest sc tc dc pre post e d).
Qed.

Lemma picks_last_of_the_best_witness :
  get_recent_RT_entry [[1; 2; 3]] [[292%float; 294%float; 150%float]]
    [[Some "2021-06-15"; Some "2021-06-15"; None]]%string = Ok [2].
Proof.
  apply (@get_recent_RT_entry_picks_last_of_the_best nat
           [1; 2; 3] [292%float; 294%float; 150%float]
           [Some "2021-06-15"; Some "2021-06-15"; None]%string
           [(1, 292%float, Some "2021-06-15"%string)]
           [(3, 150%float, None)]
           (2, 294%float, Some "2021-06-15"%string) "2021-06-15"%string).
  - intros e' [<- | [<- | [<- | []]]]; reflexivity.
  - reflexivity.
  - reflexivity.
  - intros e' [<- | [<- | []]]; reflexivity.
  - intros e' [<- | []] _. exists "2021-06-15"%string. split; reflexivity.
  - intros e' [<- | []] Htie. vm_compute in Htie. discriminate.
Defined.

(** ** The three stages in a row *)

Lemma zip3_In_parts {A B C : Type} (a : list A) (b : list B) (c : list C)
  (x : A) (y : B) (z : C) :
  In (x, y, z) (zip3 a b c) -> In x a /\ In y b /\ In z c.
Proof.
  intros Hin. destruct (zip3_columns a b c) as [Ha [Hb Hc]].
  repeat split.
  - apply (subseq_In _ _ Ha). apply in_map_iff. now exists (x, y, z).
  - apply (subseq_In _ _ Hb). apply in_map_iff. now exists (x, y, z).
  - apply (subseq_In _ _ Hc). apply in_map_iff. now exists (x, y, z).
Qed.

(** X14.  Grouping what [get_stoichiometric_info] returned and selecting
    from the groups returns one structure per framework, each closest to
    293.0 and then latest in its group, provided every retained structure
    fits itself, no retained temperature has a NaN deviation and every
    retained file gave a date. *)
Theorem selection_after_grouping_after_ingestion `{Pymatgen} `{PyFloat}
  (dir : cif_directory) (ss : list Structure) (ts : list float)
  (ds : list (option string)) (gs : list (list Structure))
  (gt : list (list float)) (gd : list (list (option string))) :
  get_stoichiometric_info dir = Ok (ss, ts, ds) ->
  get_unique_struct_info ss ts ds = (gs, gt, gd) ->
  (forall a, In a ss -> fit a a = true) ->
  (forall t, In t ts -> PrimFloat.is_nan (normalized_temp t) = false) ->
  (forall d, In d ds -> d <> None) ->
  exists out,
    get_recent_RT_entry gs gt gd = Ok out
    /\ length out = length (unique_frameworks ss)
    /\ Forall2 closest_then_latest (zip3 gs gt gd) out.
Proof.
  intros Hget Hg Hrefl Hnum Hdates.
  apply get_stoichiometric_info_rows in Hget.
  destruct Hget as [_ [Hlt [Hld _]]].
  assert (Hall : Forall selectable (zip3 gs gt gd)).
  { apply Forall_forall. intros g Hin.
    apply In_nth_error in Hin. destruct Hin as [k Hk].
    apply (group_of_framework _ _ _ _ _ _ _ _ Hg) in Hk.
    destruct Hk as [framework [Hk ->]]. split.
    - destruct (struct_class_holds_framework ss ts ds k framework
                  Hlt Hld Hrefl Hk) as [t [d Htd]].
      intros Hnil. rewrite Hnil in Htd. contradiction.
    - intros [[s t] d] He. rewrite struct_class_entries in He.
      apply filter_In in He. destruct He as [He _].
      apply zip3_In_parts in He. destruct He as [_ [Ht Hd]].
      split; [now apply Hnum | now apply Hdates]. }
  destruct (Forall_choose (fun g final => select g = Ok final)
                          closest_then_latest (zip3 gs gt gd))
    as [out [Hsel Hspec]].
  { eapply Forall_impl; [|exact Hall]. intros g. apply select_spec. }
  exists out. split; [now apply get_recent_RT_entry_groups|].
  split; [|exact Hspec].
  rewrite <- (Forall2_length Hspec), (groups_zip _ _ _ _ _ _ Hg).
  apply length_map.
Qed.

Lemma dated_directory_info :
  @get_stoichiometric_info near_matcher decimal_float dated_directory
  = Ok ([2; 4], [300%float; 150%float],
        [Some "2021-06-15"; Some "2019-01-01"]%string).
Proof. vm_compute. reflexivity. Qed.

Lemma selection_after_grouping_witness :
  (forall a, In a [2; 4] -> near a a = true)
  /\ (forall t, In t [300%float; 150%float] ->
                PrimFloat.is_nan (normalized_temp t) = false)
  /\ (forall d, In d [Some "2021-06-15"; Some "2019-01-01"]%string ->
                d <> None)
  /\ exists out,
       get_recent_RT_entry [[2]; [4]] [[300%float]; [150%float]]
         [[Some "2021-06-15"]; [Some "2019-01-01"]]%string = Ok out
       /\ length out = length (@unique_frameworks near_matcher [2; 4])
       /\ Forall2 closest_then_latest
            (zip3 [[2]; [4]] [[300%float]; [150%float]]
                  [[Some "2021-06-15"]; [Some "2019-01-01"]]%string) out.
Proof.
  assert (Hrefl : forall a, In a [2; 4] -> near a a = true)
    by (intros a _; apply near_refl).
  assert (Hnum : forall t, In t [300%float; 150%float] ->
                           PrimFloat.is_nan (normalized_temp t) = false)
    by (intros t [<- | [<- | []]]; reflexivity).
  assert (Hdates : forall d,
             In d [Some "2021-06-15"; Some "2019-01-01"]%string ->
             d <> None)
    by (intros d [<- | [<- | []]]; discriminate).
  split; [exact Hrefl|]. split; [exact Hnum|]. split; [exact Hdates|].
  exact (@selection_after_grouping_after_ingestion near_matcher decimal_float
           dated_directory _ _ _ _ _ _ dated_directory_info eq_refl
           Hrefl Hnum Hdates).
Defined.
